(** * Operation identity and the Pasqal device rules of Cirq

    A shallow embedding of two source files:

    - [cirq/ops/gate_operation.py]: [GateOperation], its equivalence key
      ([_group_interchangeable_qubits], [_eq_tuple]) and the equality and
      hash built on it;
    - [cirq/pasqal/pasqal_device.py]: [PasqalDevice], with
      [decompose_operation], [is_pasqal_device_op], [validate_operation],
      [distance] and the two value projections.

    Python dictionaries and frozensets are stdpp's [gmap] and [gset]; the
    device's [control_radius] and [distance] are IEEE binary64 numbers
    ([PrimFloat]); raised exceptions are values of a sum type. *)

From Stdlib Require Import ZArith Floats.
From stdpp Require Import base decidable option list sorting gmap strings.

Local Open Scope Z_scope.

(* ===================================================================== *)
(** * Part I: [cirq/ops/gate_operation.py] *)
(* ===================================================================== *)

Module GateOp.

(** The class object [raw_types.Operation], first component of [_eq_tuple]. *)
Inductive class_ref := raw_types_Operation.

#[global] Instance class_ref_eq_dec : EqDecision class_ref.
Proof. solve_decision. Defined.

(** An element of the tuple [_group_interchangeable_qubits] returns:
    [Union[QubitId, Tuple[int, FrozenSet[QubitId]]]]. *)
Inductive group_item (QubitId : Type) `{Countable QubitId} :=
| Single (q : QubitId)
| Group (k : Z) (s : gset QubitId).

Arguments Single {QubitId _ _} q.
Arguments Group {QubitId _ _} k s.

#[global] Instance group_item_eq_dec `{Countable QubitId} :
  EqDecision (group_item QubitId).
Proof. solve_decision. Defined.

(** What [gate_operation.py] takes from the rest of the library. Gates and
    qubit identifiers are opaque hashable values, and Python's [==] on them
    is equality of values. [OpType] holds the classes that run
    [GateOperation]'s methods ([GateOperation] and whatever derives from
    it), [issubclass c d] being Python's [issubclass(c, d)].
    [try_cast_InterchangeableQubitsGate g] is
    [extension.try_cast(gate_features.InterchangeableQubitsGate, g)]: [None]
    when the gate lacks the capability, otherwise the gate's
    [qubit_index_to_equivalence_group_key]. [hash] is Python's [hash] on the
    tuples [_eq_tuple] builds. *)
Class GateModel := {
  Gate : Type;
  Gate_eq_dec :: EqDecision Gate;
  QubitId : Type;
  QubitId_eq_dec :: EqDecision QubitId;
  QubitId_countable :: Countable QubitId;
  OpType : Type;
  issubclass : OpType → OpType → bool;
  issubclass_refl : ∀ c, issubclass c c = true;
  try_cast_InterchangeableQubitsGate : Gate → option (nat → Z);
  hash : class_ref * Gate * list (group_item QubitId) → Z
}.

Section gate_operation.

Context `{GateModel}.

(** An instance: its class ([type(self)]), [_gate] and [_qubits]. *)
Record GateOperation := mkGateOperation {
  op_type : OpType;
  gate : Gate;
  qubits : list QubitId
}.

(** [with_qubits]: the same gate applied to new qubits. *)
Definition with_qubits (self : GateOperation) (new_qubits : list QubitId) :=
  {| op_type := op_type self; gate := gate self; qubits := new_qubits |}.

(** The loop [for i, q in enumerate(self.qubits)] over the dictionary
    [groups], from index [i] on. *)
Fixpoint group_loop (key : nat → Z) (i : nat) (qs : list QubitId)
    (groups : gmap Z (list QubitId)) : gmap Z (list QubitId) :=
  match qs with
  | [] => groups
  | q :: qs' =>
      let k := key i in
      let groups1 :=
        match groups !! k with
        | None => <[k := []]> groups
        | Some _ => groups
        end in
      group_loop key (S i) qs' (alter (λ v, v ++ [q]) k groups1)
  end.

(** Python's [<] on the tuples [(k, frozenset)]: the first components
    decide unless they are equal, then the frozensets are compared, and
    [<] on frozensets is proper inclusion. *)
Definition tuple_lt (x y : Z * gset QubitId) : bool :=
  if decide (x.1 = y.1) then bool_decide (x.2 ⊂ y.2)
  else bool_decide (x.1 < y.1).

(** [sorted]: a stable insertion sort that only asks [<]. *)
Fixpoint insort (x : Z * gset QubitId) (l : list (Z * gset QubitId)) :=
  match l with
  | [] => [x]
  | y :: l' => if tuple_lt x y then x :: y :: l' else y :: insort x l'
  end.

Definition sorted (l : list (Z * gset QubitId)) : list (Z * gset QubitId) :=
  foldl (λ acc x, insort x acc) [] l.

(** [(k, frozenset(v)) for k, v in groups.items()] *)
Definition group_items (groups : gmap Z (list QubitId)) : list (Z * gset QubitId) :=
  (λ kv, (kv.1, list_to_set kv.2)) <$> map_to_list groups.

Definition _group_interchangeable_qubits (self : GateOperation) :
    list (group_item QubitId) :=
  match try_cast_InterchangeableQubitsGate (gate self) with
  | None => Single <$> qubits self
  | Some cast_gate =>
      let groups := group_loop cast_gate 0 (qubits self) ∅ in
      (λ kv, Group kv.1 kv.2) <$> sorted (group_items groups)
  end.

Definition _eq_tuple (self : GateOperation) :
    class_ref * Gate * list (group_item QubitId) :=
  (raw_types_Operation, gate self, _group_interchangeable_qubits self).

Definition __hash__ (self : GateOperation) : Z := hash (_eq_tuple self).

(** [isinstance(other, type(self))] *)
Definition isinstance_of_type (other self : GateOperation) : bool :=
  issubclass (op_type other) (op_type self).

(** [__eq__]; [None] is [NotImplemented]. *)
Definition __eq__ (self other : GateOperation) : option bool :=
  if negb (isinstance_of_type other self) then None
  else Some (bool_decide (_eq_tuple self = _eq_tuple other)).

(** The expression [a == b] between instances of classes that all run
    this [__eq__]: [a.__eq__(b)], then the reflected [b.__eq__(a)], then
    identity. Both calls answer [NotImplemented] only for instances of two
    different classes, which are two objects. *)
Definition equals (a b : GateOperation) : bool :=
  match __eq__ a b with
  | Some r => r
  | None =>
      match __eq__ b a with
      | Some r => r
      | None => false
      end
  end.

(** [__ne__] *)
Definition __ne__ (self other : GateOperation) : bool := negb (equals self other).

(** The operands with the Locations at positions [i] and [j] exchanged. *)
Definition swap_at (i j : nat) (qs : list QubitId) : list QubitId :=
  match qs !! i, qs !! j with
  | Some a, Some b => <[i := b]> (<[j := a]> qs)
  | _, _ => qs
  end.

(** The operands at the positions the gate sends to group [k], in order,
positions counted from [i]: what the loop has appended to [groups[k]]. *)
Fixpoint group_of (key : nat → Z) (i : nat) (qs : list QubitId) (k : Z) :
    list QubitId :=
  match qs with
  | [] => []
  | q :: qs' =>
      if decide (key i = k) then q :: group_of key (S i) qs' k
      else group_of key (S i) qs' k
  end.

(** The order [sorted] puts distinct keys in. *)
Definition key_lt (x y : Z * gset QubitId) : Prop := x.1 < y.1.

(** The two operand lists put the same Locations in every group, however
often each occurs. *)
Definition same_groups (key : nat → Z) (qs1 qs2 : list QubitId) : Prop :=
  ∀ k (q : QubitId),
    (∃ n, qs1 !! n = Some q ∧ key n = k) ↔ (∃ n, qs2 !! n = Some q ∧ key n = k).

(** The gate sends the operand positions to pairwise distinct keys. *)
Definition distinct_keys (key : nat → Z) (qs : list QubitId) : Prop :=
  ∀ i j, (i < length qs)%nat → (j < length qs)%nat → key i = key j → i = j.

End gate_operation.

(** ** A small instance: three gates, two classes *)

(** [CZ] is symmetric in its operands (one group for all positions),
    [CNOT] is not interchangeable, [CCX] keeps its target (position 2)
    apart from its two controls. *)
Inductive demo_gate := CZ | CNOT | CCX.

#[global] Instance demo_gate_eq_dec : EqDecision demo_gate.
Proof. solve_decision. Defined.

(** [GateOperation] and a class derived from it that overrides nothing. *)
Inductive demo_class := GateOperation_class | Derived_class.

Definition demo_issubclass (c d : demo_class) : bool :=
  match c, d with
  | GateOperation_class, Derived_class => false
  | _, _ => true
  end.

Lemma demo_issubclass_refl c : demo_issubclass c c = true.
Proof. by destruct c. Qed.

Definition demo_try_cast (g : demo_gate) : option (nat → Z) :=
  match g with
  | CZ => Some (λ _, 0)
  | CNOT => None
  | CCX => Some (λ i, if (i <? 2)%nat then 0 else 1)
  end.

Definition demo_item_hash (it : group_item nat) : Z :=
  match it with
  | Single q => Z.of_nat q
  | Group k s => k + set_fold (λ q acc, Z.of_nat q + acc) 0 s
  end.

Definition demo_hash (t : class_ref * demo_gate * list (group_item nat)) : Z :=
  foldl (λ h it, 31 * h + demo_item_hash it)
    (match t.1.2 with CZ => 1 | CNOT => 2 | CCX => 3 end) t.2.

Definition demo_model : GateModel := {|
  Gate := demo_gate;
  QubitId := nat;
  OpType := demo_class;
  issubclass := demo_issubclass;
  issubclass_refl := demo_issubclass_refl;
  try_cast_InterchangeableQubitsGate := demo_try_cast;
  hash := demo_hash
|}.

End GateOp.

(* ===================================================================== *)
(** * Part II: [cirq/pasqal/pasqal_device.py] *)
(* ===================================================================== *)

Module Pasqal.

(** Modelled from the spec: [ThreeDGridQubit] (module [cirq.pasqal]) is not
    among the sources. A Location is "a 3-axis integer grid coordinate
    (row, col, layer)"; [OtherQid] stands for a qubit of any other class. *)
Inductive Qid :=
| ThreeDGridQubit (row col lay : Z)
| OtherQid (name : Z).

#[global] Instance Qid_eq_dec : EqDecision Qid.
Proof. solve_decision. Defined.

#[global] Instance Qid_countable : Countable Qid.
Proof.
  refine (inj_countable'
    (λ q, match q with
          | ThreeDGridQubit r c l => inl (r, c, l)
          | OtherQid n => inr n
          end)
    (λ x, match x with
          | inl (r, c, l) => ThreeDGridQubit r c l
          | inr n => OtherQid n
          end) _).
  by intros [].
Defined.

(** [isinstance(q, ThreeDGridQubit)] *)
Definition isinstance_ThreeDGridQubit (q : Qid) : bool :=
  match q with
  | ThreeDGridQubit _ _ _ => true
  | OtherQid _ => false
  end.

(** The gate catalog of [cirq.ops], seen through the [isinstance] tests the
    device performs on [op.gate]. *)
Class GateCatalog := {
  Gate : Type;
  isinstance_XPowGate : Gate → bool;
  isinstance_YPowGate : Gate → bool;
  isinstance_ZPowGate : Gate → bool;
  isinstance_PhasedXPowGate : Gate → bool;
  isinstance_MeasurementGate : Gate → bool;
  isinstance_IdentityGate : Gate → bool
}.

(** A [cirq.ops.Operation]: a [GateOperation] or an operation of another
    class. *)
Inductive Operation `{GateCatalog} :=
| GateOperation (gate : Gate) (qubits : list Qid)
| OtherOperation (name : Z).

(** Modelled from the spec: [cirq.value.Duration] is not among the sources;
    the device only builds its "two fixed duration constants" with it. A
    duration is a number of picoseconds. *)
Record Duration := mkDuration { picos : Z }.

Definition Duration_nanos (n : Z) : Duration := {| picos := 1000 * n |}.

(** [k * d] *)
Definition Duration_rmul (k : Z) (d : Duration) : Duration :=
  {| picos := k * picos d |}.

(** The value of an attribute of the device. *)
Inductive value :=
| VDuration (d : Duration)
| VInt (z : Z)
| VFloat (f : float)
| VQubits (qs : list Qid).

Section pasqal_device.

Context `{GateCatalog}.

(** The messages of the exceptions the device raises, with what they
    format. *)
Inductive message :=
| UnsupportedQubitType (q : Qid)
    (* 'Unsupported qubit type: {!r}' *)
| ControlRadiusNotNonNegative
    (* "control_radius needs to be a non-negative float" *)
| NotAGateOperation (operation : Operation)
    (* "{!r} is not a gate operation." *)
| DontKnowHowToWorkWith (g : Gate)
    (* "Don't know how to work with {!r}." *)
| NotASupportedOperation (operation : Operation)
    (* '{!r} is not a supported operation' *)
| NotASupportedGate (g : Gate)
    (* '{!r} is not a supported gate' *)
| NotA3DGridQubit (qub : Qid) (g : Gate)
    (* '{} is not a 3D grid qubit for gate {!r}' *)
| TooManyQubitsControlled
    (* "Too many qubits acted on in parallel by a controlled gate operation" *)
| TooFarAway (p q : Qid)
    (* "Qubits {!r}, {!r} are too far away" *)
| TooManyZGates
    (* "Too many Z gates in parallel" *)
| BadNumberOfXYGates.
    (* "Bad number of X/Y gates in parallel" *)

(** A raised exception; [Foreign] is one that comes out of
    [cirq.protocols.decompose]. *)
Inductive exn :=
| TypeError (m : message)
| ValueError (m : message)
| Foreign (e : Z).

(** A computation that returns or raises. *)
Definition result (A : Type) : Type := exn + A.

Definition ok {A} (a : A) : result A := inr a.
Definition raise {A} (e : exn) : result A := inl e.

Definition bind {A B} (m : result A) (k : A → result B) : result B :=
  match m with
  | inl e => inl e
  | inr a => k a
  end.

Notation "'do' x <- m ; k" := (bind m (λ x, k))
  (at level 10, x binder, m at level 100, k at level 200).

(** [cirq.protocols.decompose(operation, keep=...)], the decomposition
    collaborator: it returns a list of operations or raises. *)
Class Decomposer := {
  protocols_decompose :
    Operation → (Operation → bool) → result (list Operation)
}.

Record PasqalDevice := mkPasqalDevice {
  _measurement_duration : Duration;
  _gate_duration : Duration;
  _max_parallel_z : Z;
  _max_parallel_xy : Z;
  _max_parallel_c : Z;
  _max_parallel_t : Z;
  control_radius : float;
  qubits : list Qid
}.

(** [__init__] *)
Definition __init__ (control_radius : float) (qubits : list Qid) :
    result PasqalDevice :=
  let us := Duration_rmul 1000 (Duration_nanos 1) in
  match List.find (λ q, negb (isinstance_ThreeDGridQubit q)) qubits with
  | Some q => raise (TypeError (UnsupportedQubitType q))
  | None =>
      if negb (0 <=? control_radius)%float
      then raise (ValueError ControlRadiusNotNonNegative)
      else ok {| _measurement_duration := Duration_rmul 5000 us;
                 _gate_duration := Duration_rmul 2 us;
                 _max_parallel_z := 2;
                 _max_parallel_xy := 2;
                 _max_parallel_c := 10;
                 _max_parallel_t := 1;
                 control_radius := control_radius;
                 qubits := qubits |}
  end.

Definition qubit_set (self : PasqalDevice) : gset Qid :=
  list_to_set (qubits self).

Definition qubit_list (self : PasqalDevice) : list Qid :=
  elements (qubit_set self).

(** [isinstance(op, cirq.ops.GateOperation)] *)
Definition isinstance_GateOperation (op : Operation) : bool :=
  match op with
  | GateOperation _ _ => true
  | OtherOperation _ => false
  end.

Definition is_pasqal_device_op (op : Operation) : bool :=
  match op with
  | OtherOperation _ => false
  | GateOperation gate qubits =>
      let keep := false in
      let keep := keep || (Z.of_nat (length qubits) >? 1) in
      let keep := keep || isinstance_YPowGate gate in
      let keep := keep || isinstance_ZPowGate gate in
      let keep := keep || isinstance_XPowGate gate in
      let keep := keep || isinstance_PhasedXPowGate gate in
      let keep := keep || isinstance_MeasurementGate gate in
      let keep := keep || isinstance_IdentityGate gate in
      keep
  end.

(** What a call of [decompose_operation] did: the operations it handed to
    the decomposition collaborator, in order, and how it ended. *)
Record run (A : Type) := mkRun {
  calls : list Operation;
  outcome : result A
}.
Arguments mkRun {A} calls outcome.
Arguments calls {A} r.
Arguments outcome {A} r.

(** The loop [for dec in decomposition] of [decompose_operation]. *)
Fixpoint check_decomposition (g : Gate) (decomposition : list Operation) :
    result unit :=
  match decomposition with
  | [] => ok tt
  | dec :: rest =>
      if negb (is_pasqal_device_op dec)
      then raise (TypeError (DontKnowHowToWorkWith g))
      else check_decomposition g rest
  end.

Definition decompose_operation {D : Decomposer} (operation : Operation) :
    run (list Operation) :=
  let decomposition := [operation] in
  match operation with
  | OtherOperation _ =>
      mkRun [] (raise (TypeError (NotAGateOperation operation)))
  | GateOperation gate _ =>
      if negb (is_pasqal_device_op operation) then
        mkRun [operation]
          (do decomposition <-
             protocols_decompose operation is_pasqal_device_op;
           do _ <- check_decomposition gate decomposition;
           ok decomposition)
      else
        mkRun []
          (do _ <- check_decomposition gate decomposition;
           ok decomposition)
  end.

(** [numpy.sqrt] on a Python integer: the integer becomes a binary64
    number (rounded to nearest, ties to even), then the IEEE square
    root. *)
Definition float_of_int (z : Z) : float :=
  SF2Prim (binary_normalize prec emax z 0 false).

Definition numpy_sqrt (z : Z) : float := PrimFloat.sqrt (float_of_int z).

Definition distance (self : PasqalDevice) (p q : Qid) : result float :=
  match q with
  | OtherQid _ => raise (ValueError (UnsupportedQubitType q))
  | ThreeDGridQubit q_row q_col q_lay =>
      match p with
      | OtherQid _ => raise (ValueError (UnsupportedQubitType p))
      | ThreeDGridQubit p_row p_col p_lay =>
          ok (numpy_sqrt ((p_row - q_row) ^ 2 + (p_col - q_col) ^ 2 +
                          (p_lay - q_lay) ^ 2))
      end
  end.

(** The loop [for qub in operation.qubits] of [validate_operation]. *)
Fixpoint check_qubits (g : Gate) (qs : list Qid) : result unit :=
  match qs with
  | [] => ok tt
  | qub :: rest =>
      if negb (isinstance_ThreeDGridQubit qub)
      then raise (ValueError (NotA3DGridQubit qub g))
      else check_qubits g rest
  end.

(** The inner loop [for q in operation.qubits], for one [p]. *)
Fixpoint check_reach_from (self : PasqalDevice) (p : Qid) (qs : list Qid) :
    result unit :=
  match qs with
  | [] => ok tt
  | q :: rest =>
      do d <- distance self p q;
      if (control_radius self <? d)%float
      then raise (ValueError (TooFarAway p q))
      else check_reach_from self p rest
  end.

(** The outer loop [for p in operation.qubits]: [ps] is what is left of
    it, [qs] the whole operand tuple. *)
Fixpoint check_reach (self : PasqalDevice) (ps qs : list Qid) :
    result unit :=
  match ps with
  | [] => ok tt
  | p :: rest =>
      do _ <- check_reach_from self p qs;
      check_reach self rest qs
  end.

(** "Verify that a controlled gate operation is valid" *)
Definition check_controlled (self : PasqalDevice) (qs : list Qid) :
    result unit :=
  if Z.of_nat (length qs) >? _max_parallel_c self + _max_parallel_t self
  then raise (ValueError TooManyQubitsControlled)
  else if Z.of_nat (length qs) >? 1 then check_reach self qs qs
  else ok tt.

(** "Verify that a valid number of Z gates are applied in parallel" *)
Definition check_parallel_z (self : PasqalDevice) (g : Gate) (qs : list Qid) :
    result unit :=
  if isinstance_ZPowGate g then
    if Z.of_nat (length qs) >? _max_parallel_z self
    then raise (ValueError TooManyZGates)
    else ok tt
  else ok tt.

(** "Verify that a valid number of XY gates are applied in parallel" *)
Definition check_parallel_xy (self : PasqalDevice) (g : Gate) (qs : list Qid) :
    result unit :=
  if isinstance_XPowGate g || isinstance_YPowGate g ||
     isinstance_PhasedXPowGate g then
    if (Z.of_nat (length qs) >? _max_parallel_xy self) &&
       negb (length qs =? length (qubit_list self))%nat
    then raise (ValueError BadNumberOfXYGates)
    else ok tt
  else ok tt.

Definition validate_operation (self : PasqalDevice) (operation : Operation) :
    result unit :=
  match operation with
  | OtherOperation _ =>
      raise (ValueError (NotASupportedOperation operation))
  | GateOperation gate qubits =>
      if negb (is_pasqal_device_op operation)
      then raise (ValueError (NotASupportedGate gate))
      else
        do _ <- check_qubits gate qubits;
        if isinstance_MeasurementGate gate || isinstance_IdentityGate gate
        then ok tt
        else
          do _ <- check_controlled self qubits;
          do _ <- check_parallel_z self gate qubits;
          check_parallel_xy self gate qubits
  end.

Definition _value_equality_values_ (self : PasqalDevice) : list value :=
  [ VDuration (_measurement_duration self);
    VDuration (_gate_duration self);
    VInt (_max_parallel_z self);
    VInt (_max_parallel_xy self);
    VInt (_max_parallel_c self);
    VFloat (control_radius self);
    VQubits (qubits self) ].

(** [getattr(self, name)] *)
Definition getattr (self : PasqalDevice) (name : string) : option value :=
  if decide (name = "_measurement_duration") then
    Some (VDuration (_measurement_duration self))
  else if decide (name = "_gate_duration") then
    Some (VDuration (_gate_duration self))
  else if decide (name = "_max_parallel_z") then
    Some (VInt (_max_parallel_z self))
  else if decide (name = "_max_parallel_xy") then
    Some (VInt (_max_parallel_xy self))
  else if decide (name = "_max_parallel_c") then
    Some (VInt (_max_parallel_c self))
  else if decide (name = "_max_parallel_t") then
    Some (VInt (_max_parallel_t self))
  else if decide (name = "control_radius") then
    Some (VFloat (control_radius self))
  else if decide (name = "qubits") then
    Some (VQubits (qubits self))
  else None.

(** Modelled from the spec: [cirq.protocols.obj_to_dict_helper] is not
    among the sources. It gives "a field-subset projection" of the
    object: the named attributes with their values. *)
Definition obj_to_dict_helper (self : PasqalDevice)
    (attribute_names : list string) : list (string * value) :=
  omap (λ name, (λ v, (name, v)) <$> getattr self name) attribute_names.

Definition _json_dict_ (self : PasqalDevice) : list (string * value) :=
  obj_to_dict_helper self ["control_radius"; "qubits"]%string.

(** The test of the reach loop on one ordered pair:
[self.distance(p, q) > self.control_radius]. *)
Definition too_far (self : PasqalDevice) (p q : Qid) : bool :=
  match distance self p q with
  | inr d => (control_radius self <? d)%float
  | inl _ => false
  end.

(** Every unordered pair of operands is within reach: for no two positions
[i < j] does the distance exceed the control radius. *)
Definition all_within_reach (self : PasqalDevice) (qs : list Qid) : Prop :=
  ∀ i j p q, (i < j)%nat → qs !! i = Some p → qs !! j = Some q →
    too_far self p q = false.

(** The first unordered pair of operands that is too far apart, pairs of
positions [i < j] taken in lexicographic order. *)
Fixpoint first_pair_too_far (self : PasqalDevice) (qs : list Qid) :
    option (Qid * Qid) :=
  match qs with
  | [] => None
  | p :: rest =>
      match List.find (too_far self p) rest with
      | Some q => Some (p, q)
      | None => first_pair_too_far self rest
      end
  end.

(** [(i, j)] comes before [(i', j')] in the lexicographic order. *)
Definition pair_before (i j i' j' : nat) : Prop :=
  (i < i')%nat ∨ (i = i' ∧ (j < j')%nat).

End pasqal_device.

Arguments mkRun {_ A} calls outcome.
Arguments calls {_ A} r.
Arguments outcome {_ A} r.

Notation "'do' x <- m ; k" := (bind m (λ x, k))
  (at level 10, x binder, m at level 100, k at level 200).


(** ** A small catalog and two decomposition collaborators *)

(** The six kinds the device names, and two it does not. *)
Inductive cirq_gate :=
| XPowGate | YPowGate | ZPowGate | PhasedXPowGate
| MeasurementGate | IdentityGate
| HPowGate | CZPowGate.

Definition cirq_catalog : GateCatalog := {|
  Gate := cirq_gate;
  isinstance_XPowGate g := match g with XPowGate => true | _ => false end;
  isinstance_YPowGate g := match g with YPowGate => true | _ => false end;
  isinstance_ZPowGate g := match g with ZPowGate => true | _ => false end;
  isinstance_PhasedXPowGate g :=
    match g with PhasedXPowGate => true | _ => false end;
  isinstance_MeasurementGate g :=
    match g with MeasurementGate => true | _ => false end;
  isinstance_IdentityGate g :=
    match g with IdentityGate => true | _ => false end
|}.

(** A [GateOperation] over this catalog. *)
Definition cirq_op (g : cirq_gate) (qs : list Qid) : @Operation cirq_catalog :=
  @GateOperation cirq_catalog g qs.

(** A collaborator with one rewrite rule: H becomes a Y rotation followed
    by an X rotation; anything else has no rule. *)
Definition rewriting_decomposer : @Decomposer cirq_catalog := {|
  protocols_decompose (op : @Operation cirq_catalog) keep :=
    match op with
    | GateOperation g qs =>
        match g : cirq_gate with
        | HPowGate => ok [cirq_op YPowGate qs; cirq_op XPowGate qs]
        | _ => raise (Foreign 0)
        end
    | OtherOperation _ => raise (Foreign 0)
    end
|}.

(** A collaborator that stops too early and leaves an H in its result. *)
Definition careless_decomposer : @Decomposer cirq_catalog := {|
  protocols_decompose (op : @Operation cirq_catalog) keep :=
    match op with
    | GateOperation g qs =>
        match g : cirq_gate with
        | HPowGate => ok [cirq_op YPowGate qs; cirq_op HPowGate qs]
        | _ => raise (Foreign 0)
        end
    | OtherOperation _ => raise (Foreign 0)
    end
|}.

(** The eight sites of a unit cube, and the device [__init__] builds on
    them with control radius 1.5; its face diagonals are within reach, its
    space diagonals are not. *)
Definition unit_cube : list Qid :=
  [ ThreeDGridQubit 0 0 0; ThreeDGridQubit 0 0 1;
    ThreeDGridQubit 0 1 0; ThreeDGridQubit 0 1 1;
    ThreeDGridQubit 1 0 0; ThreeDGridQubit 1 0 1;
    ThreeDGridQubit 1 1 0; ThreeDGridQubit 1 1 1 ].

Definition cube_device : @PasqalDevice := {|
  _measurement_duration := {| picos := 5000000000 |};
  _gate_duration := {| picos := 2000000 |};
  _max_parallel_z := 2;
  _max_parallel_xy := 2;
  _max_parallel_c := 10;
  _max_parallel_t := 1;
  control_radius := 1.5;
  qubits := unit_cube
|}.

(** The four sites of one face of the cube, all within reach of one
    another, and the device on them. *)
Definition unit_face : list Qid :=
  [ ThreeDGridQubit 0 0 0; ThreeDGridQubit 0 0 1;
    ThreeDGridQubit 0 1 0; ThreeDGridQubit 0 1 1 ].

Definition face_device : @PasqalDevice := {|
  _measurement_duration := {| picos := 5000000000 |};
  _gate_duration := {| picos := 2000000 |};
  _max_parallel_z := 2;
  _max_parallel_xy := 2;
  _max_parallel_c := 10;
  _max_parallel_t := 1;
  control_radius := 1.5;
  qubits := unit_face
|}.

End Pasqal.

(* ===================================================================== *)
(** * Facts about Part I *)
(* ===================================================================== *)

Module GateOpFacts.
Import GateOp.

Section grouping.

Context `{GateModel}.

Implicit Types (key : nat → Z) (qs : list QubitId) (k : Z).
Implicit Types (l : list (Z * gset QubitId)).

(** ** The dictionary the loop builds *)

Lemma group_loop_lookup key i qs (groups : gmap Z (list QubitId)) k :
  group_loop key i qs groups !! k =
    match groups !! k with
    | Some v => Some (v ++ group_of key i qs k)
    | None =>
        match group_of key i qs k with
        | [] => None
        | g => Some g
        end
    end.
Proof.
  revert i groups. induction qs as [|q qs IH]; intros i groups; simpl.
  { destruct (groups !! k) as [v|]; [by rewrite app_nil_r | done]. }
  rewrite IH. clear IH.
  destruct (decide (key i = k)) as [->|Hne].
  - destruct (groups !! k) as [v|] eqn:Hk.
    + rewrite lookup_alter_eq, Hk. simpl. by rewrite <- app_assoc.
    + rewrite lookup_alter_eq, lookup_insert_eq. done.
  - rewrite lookup_alter_ne by done.
    destruct (groups !! key i); [done|]. by rewrite lookup_insert_ne.
Qed.

Lemma group_loop_empty_lookup key qs k :
  group_loop key 0 qs ∅ !! k =
    match group_of key 0 qs k with
    | [] => None
    | g => Some g
    end.
Proof. by rewrite group_loop_lookup, lookup_empty. Qed.

Lemma elem_of_group_of key i qs k (q : QubitId) :
  q ∈ group_of key i qs k ↔ ∃ n, qs !! n = Some q ∧ key (i + n)%nat = k.
Proof.
  revert i. induction qs as [|q' qs IH]; intros i; simpl.
  { split; [by intros ?%elem_of_nil | by intros (n & ? & _)]. }
  split.
  - intros Hin. destruct (decide (key i = k)) as [Hk|Hk].
    + apply elem_of_cons in Hin as [->|Hin].
      * exists 0%nat. by rewrite Nat.add_0_r.
      * apply IH in Hin as (n & Hn & Hkey). exists (S n).
        by rewrite Nat.add_succ_r.
    + apply IH in Hin as (n & Hn & Hkey). exists (S n).
      by rewrite Nat.add_succ_r.
  - intros ([|n] & Hn & Hkey); simpl in Hn.
    + injection Hn as ->. rewrite Nat.add_0_r in Hkey.
      rewrite decide_True by done. left.
    + assert (q ∈ group_of key (S i) qs k) as Hin.
      { apply IH. exists n. by rewrite Nat.add_succ_r in Hkey. }
      destruct (decide (key i = k)); [by right | done].
Qed.

Lemma elem_of_group_items key qs k (s : gset QubitId) :
  (k, s) ∈ group_items (group_loop key 0 qs ∅) ↔
    group_of key 0 qs k ≠ [] ∧ s = list_to_set (group_of key 0 qs k).
Proof.
  unfold group_items. rewrite list_elem_of_fmap. split.
  - intros ([k' v] & [= -> ->] & Hin). simpl.
    apply elem_of_map_to_list in Hin.
    rewrite group_loop_empty_lookup in Hin.
    destruct (group_of key 0 qs k'); naive_solver.
  - intros [Hne ->]. exists (k, group_of key 0 qs k). split; [done|].
    apply elem_of_map_to_list. rewrite group_loop_empty_lookup.
    by destruct (group_of key 0 qs k).
Qed.

Lemma group_items_keys (groups : gmap Z (list QubitId)) :
  (group_items groups).*1 = (map_to_list groups).*1.
Proof.
  unfold group_items. rewrite <- list_fmap_compose. by apply list_fmap_ext.
Qed.

Lemma NoDup_group_items_keys (groups : gmap Z (list QubitId)) :
  NoDup (group_items groups).*1.
Proof. rewrite group_items_keys. apply NoDup_fst_map_to_list. Qed.


(** ** [sorted] on tuples with distinct keys *)

Lemma insort_Permutation (x : Z * gset QubitId) l : insort x l ≡ₚ x :: l.
Proof.
  induction l as [|y l IH]; simpl; [done|].
  destruct (tuple_lt x y); [done|]. rewrite IH. apply Permutation_swap.
Qed.

Lemma foldl_insort_Permutation l acc :
  foldl (λ acc x, insort x acc) acc l ≡ₚ acc ++ l.
Proof.
  revert acc. induction l as [|x l IH]; intros acc; simpl.
  - by rewrite app_nil_r.
  - rewrite IH, insort_Permutation. simpl. apply Permutation_middle.
Qed.

Lemma sorted_Permutation l : sorted l ≡ₚ l.
Proof. unfold sorted. by rewrite foldl_insort_Permutation. Qed.

Lemma tuple_lt_distinct_keys (x y : Z * gset QubitId) :
  x.1 ≠ y.1 → tuple_lt x y = bool_decide (x.1 < y.1).
Proof. intros Hne. unfold tuple_lt. by rewrite decide_False. Qed.

Lemma insort_StronglySorted (x : Z * gset QubitId) l :
  x.1 ∉ l.*1 → StronglySorted key_lt l → StronglySorted key_lt (insort x l).
Proof.
  intros Hx Hl. induction Hl as [|y l Hl IH Hy]; simpl.
  { repeat constructor. }
  rewrite fmap_cons, not_elem_of_cons in Hx. destruct Hx as [Hxy Hx].
  rewrite tuple_lt_distinct_keys by done. case_bool_decide as Hlt.
  - constructor; [by constructor|].
    constructor; [done|].
    eapply Forall_impl; [exact Hy|]. unfold key_lt. intros; lia.
  - constructor; [by apply IH|].
    rewrite insort_Permutation. constructor; [|done].
    unfold key_lt. lia.
Qed.

Lemma foldl_insort_StronglySorted l acc :
  NoDup (acc ++ l).*1 → StronglySorted key_lt acc →
  StronglySorted key_lt (foldl (λ acc x, insort x acc) acc l).
Proof.
  revert acc. induction l as [|x l IH]; intros acc Hnd Hacc; simpl; [done|].
  assert ((acc ++ x :: l).*1 ≡ₚ (x :: acc ++ l).*1) as Hperm.
  { by rewrite <- Permutation_middle. }
  rewrite Hperm, fmap_cons, fmap_app in Hnd.
  apply NoDup_cons in Hnd as [Hx Hnd].
  apply IH.
  - rewrite fmap_app, (fmap_Permutation fst _ _ (insort_Permutation x acc)).
    rewrite fmap_cons. simpl. constructor; [|done].
    by rewrite not_elem_of_app in Hx |- *.
  - apply insort_StronglySorted; [|done].
    rewrite not_elem_of_app in Hx. tauto.
Qed.

Lemma sorted_StronglySorted l : NoDup l.*1 → StronglySorted key_lt (sorted l).
Proof.
  intros. apply foldl_insort_StronglySorted; [done | constructor].
Qed.

Lemma sorted_Permutation_eq l1 l2 :
  NoDup l1.*1 → l1 ≡ₚ l2 → sorted l1 = sorted l2.
Proof.
  intros Hnd Hperm.
  assert (NoDup l2.*1) by (by rewrite <- Hperm).
  apply (StronglySorted_unique_strong key_lt).
  - unfold key_lt. intros; lia.
  - by apply sorted_StronglySorted.
  - by apply sorted_StronglySorted.
  - by rewrite !sorted_Permutation.
Qed.


(** ** The equivalence key depends on the group sets only *)

Lemma group_of_nil_iff key qs k :
  group_of key 0 qs k = [] ↔ list_to_set (group_of key 0 qs k) =@{gset QubitId} ∅.
Proof.
  split; [by intros -> |].
  destruct (group_of key 0 qs k) as [|q g]; [done|].
  intros Hempty. exfalso. apply (not_elem_of_empty (C:=gset QubitId) q).
  rewrite <- Hempty. set_solver.
Qed.

Lemma same_groups_sets key qs1 qs2 k :
  same_groups key qs1 qs2 →
  list_to_set (group_of key 0 qs1 k) =@{gset QubitId}
    list_to_set (group_of key 0 qs2 k).
Proof.
  intros Hsame. apply set_eq. intros q.
  rewrite !elem_of_list_to_set, !elem_of_group_of. apply Hsame.
Qed.

Lemma same_groups_sorted_items key qs1 qs2 :
  same_groups key qs1 qs2 →
  sorted (group_items (group_loop key 0 qs1 ∅)) =
    sorted (group_items (group_loop key 0 qs2 ∅)).
Proof.
  intros Hsame. apply sorted_Permutation_eq; [apply NoDup_group_items_keys|].
  apply NoDup_Permutation.
  - eapply NoDup_fmap_1, NoDup_group_items_keys.
  - eapply NoDup_fmap_1, NoDup_group_items_keys.
  - intros [k s]. rewrite !elem_of_group_items, !group_of_nil_iff.
    by rewrite (same_groups_sets key qs1 qs2 k Hsame).
Qed.

Lemma same_groups_eq_tuple (a b : GateOperation) key :
  gate a = gate b →
  try_cast_InterchangeableQubitsGate (gate a) = Some key →
  same_groups key (qubits a) (qubits b) →
  _eq_tuple a = _eq_tuple b.
Proof.
  intros Hgate Hcast Hsame. unfold _eq_tuple, _group_interchangeable_qubits.
  rewrite <- Hgate, Hcast. simpl.
  by rewrite (same_groups_sorted_items key _ _ Hsame).
Qed.

Lemma equals_same_type (a b : GateOperation) :
  op_type a = op_type b →
  equals a b = bool_decide (_eq_tuple a = _eq_tuple b).
Proof.
  intros Hty. unfold equals, __eq__, isinstance_of_type.
  by rewrite Hty, issubclass_refl.
Qed.

(** ** Exchanging two operands *)

Lemma swap_at_lookup i j qs n :
  (i < length qs)%nat → (j < length qs)%nat →
  swap_at i j qs !! n =
    qs !! (if decide (n = i) then j else if decide (n = j) then i else n).
Proof.
  intros Hi Hj. unfold swap_at.
  destruct (lookup_lt_is_Some_2 qs i Hi) as [a Ha].
  destruct (lookup_lt_is_Some_2 qs j Hj) as [b Hb].
  rewrite Ha, Hb.
  destruct (decide (n = i)) as [->|Hni].
  { rewrite list_lookup_insert_eq; [done | by rewrite length_insert]. }
  rewrite list_lookup_insert_ne by done.
  destruct (decide (n = j)) as [->|Hnj].
  { by rewrite list_lookup_insert_eq. }
  by rewrite list_lookup_insert_ne.
Qed.

Lemma swap_at_same_groups key i j qs :
  (i < length qs)%nat → (j < length qs)%nat → key i = key j →
  same_groups key qs (swap_at i j qs).
Proof.
  intros Hi Hj Hkey k q. split.
  - intros (n & Hn & Hk).
    exists (if decide (n = i) then j else if decide (n = j) then i else n).
    rewrite swap_at_lookup by done.
    repeat case_decide; simplify_eq; split; try done; congruence.
  - intros (n & Hn & Hk). rewrite swap_at_lookup in Hn by done.
    eexists. split; [exact Hn|].
    repeat case_decide; simplify_eq; congruence.
Qed.


(** ** Operands with pairwise distinct keys *)

#[local] Instance Single_inj : Inj (=) (=) (@Single QubitId _ _).
Proof. by intros q1 q2 [= ->]. Qed.

#[local] Instance Group_of_pair_inj :
  Inj (=) (=) (λ kv : Z * gset QubitId, Group kv.1 kv.2).
Proof. by intros [k1 s1] [k2 s2] [= -> ->]. Qed.

Lemma distinct_keys_group key qs n (q : QubitId) :
  distinct_keys key qs → qs !! n = Some q →
  list_to_set (group_of key 0 qs (key n)) =@{gset QubitId} {[ q ]}.
Proof.
  intros Hdist Hn. apply set_eq. intros q'.
  rewrite elem_of_list_to_set, elem_of_group_of, elem_of_singleton. split.
  - intros (m & Hm & Hkey). simpl in Hkey.
    assert (m = n) as ->; [|congruence].
    apply Hdist; [by eapply lookup_lt_Some..|done].
  - intros ->. by exists n.
Qed.

Lemma distinct_keys_item key qs n (q : QubitId) :
  distinct_keys key qs → qs !! n = Some q →
  (key n, {[ q ]}) ∈ group_items (group_loop key 0 qs ∅).
Proof.
  intros Hdist Hn. apply elem_of_group_items.
  rewrite group_of_nil_iff, (distinct_keys_group key qs n q Hdist Hn).
  split; [|done]. apply non_empty_singleton_L.
Qed.

Lemma distinct_keys_sorted_items_inj key qs qs' :
  distinct_keys key qs → length qs' = length qs →
  sorted (group_items (group_loop key 0 qs ∅)) =
    sorted (group_items (group_loop key 0 qs' ∅)) →
  qs' = qs.
Proof.
  intros Hdist Hlen Hsorted.
  assert (distinct_keys key qs') as Hdist'.
  { unfold distinct_keys. rewrite Hlen. exact Hdist. }
  apply list_eq. intros n.
  destruct (qs !! n) as [q|] eqn:Hn.
  - destruct (lookup_lt_is_Some_2 qs' n) as [q' Hn'].
    { rewrite Hlen. by eapply lookup_lt_Some. }
    rewrite Hn'. f_equal.
    pose proof (distinct_keys_item key qs n q Hdist Hn) as Hin.
    rewrite <- sorted_Permutation, Hsorted, sorted_Permutation in Hin.
    apply elem_of_group_items in Hin as [_ Hset].
    rewrite (distinct_keys_group key qs' n q' Hdist' Hn') in Hset.
    assert (q' ∈ ({[ q ]} : gset QubitId)) as Hq' by (rewrite Hset; set_solver).
    by apply elem_of_singleton in Hq'.
  - apply lookup_ge_None. rewrite Hlen. by apply lookup_ge_None.
Qed.

End grouping.

(** ** The claims on [GateOperation] *)

Section claims.

Context `{GateModel}.

#[local] Existing Instances Single_inj Group_of_pair_inj.

(** C1. When the gate implements InterchangeableQubitsGate and sends the
    positions [i] and [j] of the operands to the same group key, the
    operation with the Locations at [i] and [j] exchanged equals the
    original, both ways round, and has the same hash. *)
Theorem swap_in_group_preserves_equals_and_hash
    (op : GateOperation) (key : nat → Z) (i j : nat) :
  try_cast_InterchangeableQubitsGate (gate op) = Some key →
  (i < length (qubits op))%nat → (j < length (qubits op))%nat →
  key i = key j →
  equals op (with_qubits op (swap_at i j (qubits op))) = true ∧
  equals (with_qubits op (swap_at i j (qubits op))) op = true ∧
  __hash__ (with_qubits op (swap_at i j (qubits op))) = __hash__ op.
Proof.
  intros Hcast Hi Hj Hkey.
  assert (_eq_tuple op = _eq_tuple (with_qubits op (swap_at i j (qubits op))))
    as Heq.
  { apply (same_groups_eq_tuple _ _ key); [done..|].
    by apply swap_at_same_groups. }
  rewrite !equals_same_type by done. unfold __hash__. rewrite <- Heq.
  by rewrite !bool_decide_eq_true_2.
Qed.

(** C10. For a gate implementing InterchangeableQubitsGate, two
    operations of one class with equal gates whose operand lists put the
    same Locations in every group, whatever the number of occurrences of
    each, are equal and have the same hash. *)
Theorem equality_ignores_multiplicity_in_group
    (a b : GateOperation) (key : nat → Z) :
  op_type a = op_type b →
  gate a = gate b →
  try_cast_InterchangeableQubitsGate (gate a) = Some key →
  same_groups key (qubits a) (qubits b) →
  equals a b = true ∧ __hash__ a = __hash__ b.
Proof.
  intros Hty Hgate Hcast Hsame.
  pose proof (same_groups_eq_tuple a b key Hgate Hcast Hsame) as Heq.
  rewrite equals_same_type by done. unfold __hash__. rewrite Heq.
  by rewrite bool_decide_eq_true_2.
Qed.

(** C6. When the gate does not implement InterchangeableQubitsGate, or
    sends the operand positions to pairwise distinct keys, an operation
    whose operands are a rearrangement of the original's in another order
    is unequal to the original. *)
Theorem reordering_ungrouped_operands_changes_operation
    (op : GateOperation) (qs' : list QubitId) :
  try_cast_InterchangeableQubitsGate (gate op) = None ∨
    (∃ key, try_cast_InterchangeableQubitsGate (gate op) = Some key ∧
            distinct_keys key (qubits op)) →
  qs' ≡ₚ qubits op →
  qs' ≠ qubits op →
  equals op (with_qubits op qs') = false ∧
  equals (with_qubits op qs') op = false.
Proof.
  intros Hgate Hperm Hne.
  rewrite !equals_same_type by done.
  assert (_eq_tuple op ≠ _eq_tuple (with_qubits op qs')) as Hneq.
  { unfold _eq_tuple, _group_interchangeable_qubits. simpl.
    intros [= Heq]. apply Hne.
    destruct Hgate as [Hnone | (key & Hsome & Hdist)].
    - rewrite Hnone in Heq. symmetry.
      by apply (inj (fmap Single)) in Heq.
    - rewrite Hsome in Heq.
      apply (distinct_keys_sorted_items_inj key); [done| |].
      + by rewrite Hperm.
      + eapply (inj (fmap _)), Heq. }
  split; apply bool_decide_eq_false_2; congruence.
Qed.

(** C7, as amended. [a == b] holds exactly when one of the two is an
    instance of the other's class (the same class or one derived from it)
    and the gates and equivalence keys agree; the classes themselves are
    not compared. In particular operations of two classes neither of
    which derives from the other are never equal. *)
Theorem equals_characterisation (a b : GateOperation) :
  equals a b =
    (isinstance_of_type b a || isinstance_of_type a b) &&
    bool_decide (_eq_tuple a = _eq_tuple b).
Proof.
  unfold equals, __eq__.
  destruct (isinstance_of_type b a); simpl; [done|].
  destruct (isinstance_of_type a b); simpl; [|done].
  apply bool_decide_ext. split; congruence.
Qed.

End claims.

(** ** The claims at concrete operations of [demo_model] *)

(** [CZ] on (1, 2, 3), first and last operand exchanged. *)
Lemma swap_in_group_witness :
  let op := @mkGateOperation demo_model GateOperation_class CZ [1; 2; 3]%nat in
  let op' := @mkGateOperation demo_model GateOperation_class CZ [3; 2; 1]%nat in
  equals op op' = true ∧ equals op' op = true ∧ __hash__ op' = __hash__ op.
Proof.
  intros op op'.
  apply (swap_in_group_preserves_equals_and_hash op (λ _, 0) 0 2).
  - reflexivity.
  - simpl; lia.
  - simpl; lia.
  - reflexivity.
Defined.

(** [CZ] on (1, 1, 2) and on (1, 2, 2): the one group holds 1 and 2 in
    both. *)
Lemma equality_ignores_multiplicity_witness :
  let a := @mkGateOperation demo_model GateOperation_class CZ [1; 1; 2]%nat in
  let b := @mkGateOperation demo_model GateOperation_class CZ [1; 2; 2]%nat in
  equals a b = true ∧ __hash__ a = __hash__ b.
Proof.
  intros a b.
  apply (equality_ignores_multiplicity_in_group a b (λ _, 0)).
  - reflexivity.
  - reflexivity.
  - reflexivity.
  - intros k q. split; intros (n & Hn & Hk);
      destruct n as [|[|[|n]]]; simpl in Hn; try discriminate Hn;
      injection Hn as <-.
    + by exists 0%nat.
    + by exists 0%nat.
    + by exists 1%nat.
    + by exists 0%nat.
    + by exists 2%nat.
    + by exists 2%nat.
Defined.

(** [CNOT] on (1, 2) and on (2, 1). *)
Lemma reordering_ungrouped_witness :
  let op := @mkGateOperation demo_model GateOperation_class CNOT [1; 2]%nat in
  let op' := @mkGateOperation demo_model GateOperation_class CNOT [2; 1]%nat in
  equals op op' = false ∧ equals op' op = false.
Proof.
  intros op op'.
  apply (reordering_ungrouped_operands_changes_operation op [2; 1]%nat).
  - left. reflexivity.
  - apply Permutation_swap.
  - discriminate.
Defined.

(** C7 as stated fails: an instance of a class derived from
    [GateOperation] equals the [GateOperation] with the same gate and
    operands, in both directions, though the two classes differ. *)
Lemma derived_instance_equals_base_instance :
  let a := @mkGateOperation demo_model GateOperation_class CNOT [1; 2]%nat in
  let b := @mkGateOperation demo_model Derived_class CNOT [1; 2]%nat in
  op_type a ≠ op_type b ∧ equals a b = true ∧ equals b a = true.
Proof. split; [discriminate | split; reflexivity]. Qed.

(** [CCX]: exchanging the two controls keeps the operation, exchanging a
    control and the target does not. *)
Example ccx_controls_and_target :
  let op := @mkGateOperation demo_model GateOperation_class CCX [1; 2; 3]%nat in
  equals op (with_qubits op [2; 1; 3]%nat) = true ∧
  equals op (with_qubits op [1; 3; 2]%nat) = false.
Proof. split; vm_compute; reflexivity. Qed.

End GateOpFacts.

(* ===================================================================== *)
(** * Facts about Part II *)
(* ===================================================================== *)

Module PasqalFacts.
Import Pasqal.

Section legalize.

Context `{GateCatalog}.

Implicit Types (self : PasqalDevice) (g : Gate) (qs : list Qid).
Implicit Types (operation op : Operation).

(** ** [decompose_operation] *)

Lemma is_pasqal_device_op_GateOperation op :
  is_pasqal_device_op op = true → isinstance_GateOperation op = true.
Proof. by destruct op. Qed.

Lemma check_decomposition_ok g (decomposition : list Operation) :
  (∀ dec, dec ∈ decomposition → is_pasqal_device_op dec = true) →
  check_decomposition g decomposition = ok tt.
Proof.
  induction decomposition as [|dec rest IH]; intros Hall; simpl; [done|].
  rewrite Hall by left. simpl. apply IH. intros; apply Hall. by right.
Qed.

Lemma check_decomposition_residue g (decomposition : list Operation) dec :
  dec ∈ decomposition → is_pasqal_device_op dec = false →
  check_decomposition g decomposition =
    raise (TypeError (DontKnowHowToWorkWith g)).
Proof.
  intros Hin Hdec. induction Hin as [dec rest | dec dec' rest Hin IH]; simpl.
  - by rewrite Hdec.
  - destruct (is_pasqal_device_op dec'); simpl; [by apply IH | done].
Qed.


(** C2. When the operation is not native and the decomposition
    collaborator returns a sequence, every element of it is checked against
    [is_pasqal_device_op]: if all pass the sequence is returned, and if any
    element fails, the call raises the TypeError whose message is built
    from the gate of the operation that was passed in, whichever element
    failed. *)
Theorem decomposition_is_checked_again {D : Decomposer}
    g qs (decomposition : list Operation) :
  is_pasqal_device_op (GateOperation g qs) = false →
  protocols_decompose (GateOperation g qs) is_pasqal_device_op =
    ok decomposition →
  ((∀ dec, dec ∈ decomposition → is_pasqal_device_op dec = true) →
     outcome (decompose_operation (GateOperation g qs)) = ok decomposition) ∧
  (∀ dec, dec ∈ decomposition → is_pasqal_device_op dec = false →
     outcome (decompose_operation (GateOperation g qs)) =
       raise (TypeError (DontKnowHowToWorkWith g))).
Proof.
  intros Hnative Hdec. unfold decompose_operation.
  rewrite Hnative, Hdec. simpl. split.
  - intros Hall. by rewrite check_decomposition_ok.
  - intros dec Hin Hbad. by rewrite (check_decomposition_residue g _ dec).
Qed.

(** C4. A native operation is returned as the one-element sequence
    holding it, and the decomposition collaborator is not called. *)
Theorem native_operation_is_kept {D : Decomposer} op :
  is_pasqal_device_op op = true →
  decompose_operation op = mkRun [] (ok [op]).
Proof.
  intros Hnative. destruct op as [g qs|name]; [|done].
  unfold decompose_operation. rewrite Hnative. cbn [negb].
  rewrite check_decomposition_ok; [done|].
  intros dec ->%list_elem_of_singleton. done.
Qed.

(** C9. An operation that is not a [GateOperation] is not native, and
    [decompose_operation] raises its TypeError for it without calling the
    decomposition collaborator. *)
Theorem non_gate_operation_is_refused {D : Decomposer} operation :
  isinstance_GateOperation operation = false →
  is_pasqal_device_op operation = false ∧
  decompose_operation operation =
    mkRun [] (raise (TypeError (NotAGateOperation operation))).
Proof. intros Hop. by destruct operation. Qed.

End legalize.

Section validate.

Context `{GateCatalog}.

Implicit Types (self : PasqalDevice) (g : Gate) (p q : Qid) (qs : list Qid).

(** ** Searching a list *)

Lemma find_None_lookup {A} (f : A → bool) (l : list A) :
  List.find f l = None ↔ ∀ j x, l !! j = Some x → f x = false.
Proof.
  induction l as [|y l IH]; simpl.
  { split; [by intros _ j x | done]. }
  destruct (f y) eqn:Hy.
  - split; [done|]. intros Hall. specialize (Hall 0%nat y eq_refl). congruence.
  - rewrite IH. split.
    + intros Hall [|j] x Hx; simpl in Hx; [congruence | by eapply Hall].
    + intros Hall j x Hx. by apply (Hall (S j)).
Qed.

Lemma find_Some_lookup {A} (f : A → bool) (l : list A) x :
  List.find f l = Some x →
  ∃ j, l !! j = Some x ∧ f x = true ∧
       ∀ j' y, (j' < j)%nat → l !! j' = Some y → f y = false.
Proof.
  induction l as [|y l IH]; simpl; [done|].
  destruct (f y) eqn:Hy.
  - intros [= ->]. exists 0%nat. split_and!; [done..|]. intros; lia.
  - intros (j & Hj & Hx & Hbefore)%IH. exists (S j). split_and!; [done..|].
    intros [|j'] z Hlt Hz; simpl in Hz; [congruence|].
    apply (Hbefore j'); [lia | done].
Qed.

Lemma find_app_skip {A} (f : A → bool) (l1 l2 : list A) :
  (∀ x, x ∈ l1 → f x = false) → List.find f (l1 ++ l2) = List.find f l2.
Proof.
  induction l1 as [|y l1 IH]; intros Hall; simpl; [done|].
  rewrite Hall by left. apply IH. intros; apply Hall. by right.
Qed.

(** ** Grid qubits and distances *)

Lemma check_qubits_ok g qs :
  check_qubits g qs = ok tt ↔
    ∀ q, q ∈ qs → isinstance_ThreeDGridQubit q = true.
Proof.
  induction qs as [|q' qs IH]; simpl.
  { split; [by intros _ q ?%elem_of_nil | done]. }
  destruct (isinstance_ThreeDGridQubit q') eqn:Hq'; simpl.
  - rewrite IH. split.
    + intros Hall q [->|Hin]%elem_of_cons; [done | by apply Hall].
    + intros Hall q Hin. apply Hall. by right.
  - split; [done|]. intros Hall. specialize (Hall q'). rewrite Hq' in Hall.
    discriminate Hall. left.
Qed.

Lemma float_nonneg_not_below_zero (r : float) :
  (0 <=? r)%float = true → (r <? 0)%float = false.
Proof.
  rewrite leb_spec, ltb_spec.
  change (Prim2SF 0%float) with (S754_zero false).
  by destruct (Prim2SF r) as [[]| [] | | [] m e].
Qed.

Lemma numpy_sqrt_0 : numpy_sqrt 0 = 0%float.
Proof. reflexivity. Qed.

Lemma distance_grid self p q :
  isinstance_ThreeDGridQubit p = true → isinstance_ThreeDGridQubit q = true →
  ∃ d, distance self p q = ok d.
Proof. destruct p, q; try done. intros _ _. by eexists. Qed.

Lemma distance_sym self p q :
  isinstance_ThreeDGridQubit p = true → isinstance_ThreeDGridQubit q = true →
  distance self p q = distance self q p.
Proof.
  destruct p as [pr pc pl|], q as [qr qc ql|]; try done. intros _ _.
  unfold distance. do 2 f_equal. ring.
Qed.

Lemma too_far_sym self p q :
  isinstance_ThreeDGridQubit p = true → isinstance_ThreeDGridQubit q = true →
  too_far self p q = too_far self q p.
Proof. intros Hp Hq. unfold too_far. by rewrite distance_sym. Qed.

Lemma too_far_self self p :
  (0 <=? control_radius self)%float = true → too_far self p p = false.
Proof.
  intros Hr. destruct p as [r c l|]; [|done]. unfold too_far, distance.
  replace ((r - r) ^ 2 + (c - c) ^ 2 + (l - l) ^ 2) with 0 by ring.
  rewrite numpy_sqrt_0. by apply float_nonneg_not_below_zero.
Qed.


(** On numbers, "not greater" is "less or equal": the reach test
    [distance > control_radius] fails exactly when
    [distance <= control_radius] holds, as long as neither side is a NaN.
    The radius of a device built by [__init__] is not one. *)

Lemma SFcompare_antisym (x y : spec_float) :
  SFcompare y x = CompOpp <$> SFcompare x y.
Proof.
  destruct x as [[]|[]| |[] m1 e1], y as [[]|[]| |[] m2 e2]; try done; simpl;
    rewrite (Z.compare_antisym e1 e2);
    destruct (e1 ?= e2); simpl; try done;
    change (Pos.compare_cont Eq m2 m1) with (m2 ?= m1)%positive;
    change (Pos.compare_cont Eq m1 m2) with (m1 ?= m2)%positive;
    rewrite (Pos.compare_antisym m1 m2); by destruct (m1 ?= m2)%positive.
Qed.

Lemma float_leb_not_ltb (x y : float) :
  Prim2SF x ≠ S754_nan → Prim2SF y ≠ S754_nan →
  (x <=? y)%float = negb (y <? x)%float.
Proof.
  intros Hx Hy. rewrite leb_spec, ltb_spec. unfold SFleb, SFltb.
  rewrite (SFcompare_antisym (Prim2SF x) (Prim2SF y)).
  destruct (SFcompare (Prim2SF x) (Prim2SF y)) as [[]|] eqn:Hc; try done.
  exfalso.
  by destruct (Prim2SF x) as [[]|[]| |[] m1 e1],
    (Prim2SF y) as [[]|[]| |[] m2 e2].
Qed.

Lemma float_nonneg_not_nan (r : float) :
  (0 <=? r)%float = true → Prim2SF r ≠ S754_nan.
Proof.
  rewrite leb_spec. change (Prim2SF 0%float) with (S754_zero false).
  intros Hle Hnan. rewrite Hnan in Hle. discriminate Hle.
Qed.

Lemma too_far_false_iff_le self p q (d : float) :
  (0 <=? control_radius self)%float = true →
  distance self p q = ok d → Prim2SF d ≠ S754_nan →
  too_far self p q = false ↔ (d <=? control_radius self)%float = true.
Proof.
  intros Hr Hd Hnan. unfold too_far. rewrite Hd.
  rewrite (float_leb_not_ltb d _ Hnan (float_nonneg_not_nan _ Hr)).
  unfold ok. destruct (control_radius self <? d)%float; simpl; split; congruence.
Qed.

(** ** The reach loops *)

Lemma check_reach_from_find self p qs :
  isinstance_ThreeDGridQubit p = true →
  (∀ q, q ∈ qs → isinstance_ThreeDGridQubit q = true) →
  check_reach_from self p qs =
    match List.find (too_far self p) qs with
    | Some q => raise (ValueError (TooFarAway p q))
    | None => ok tt
    end.
Proof.
  intros Hp. induction qs as [|q qs IH]; intros Hqs; simpl; [done|].
  destruct (distance_grid self p q Hp) as [d Hd]; [apply Hqs; left|].
  unfold too_far. rewrite Hd. simpl.
  destruct (control_radius self <? d)%float; [done|].
  apply IH. intros; apply Hqs. by right.
Qed.

Lemma check_reach_first_pair self (pre ps : list Qid) :
  (0 <=? control_radius self)%float = true →
  (∀ q, q ∈ pre ++ ps → isinstance_ThreeDGridQubit q = true) →
  (∀ a b, a ∈ pre → b ∈ pre ++ ps → too_far self a b = false) →
  check_reach self ps (pre ++ ps) =
    match first_pair_too_far self ps with
    | Some (p, q) => raise (ValueError (TooFarAway p q))
    | None => ok tt
    end.
Proof.
  intros Hr. revert pre.
  induction ps as [|p rest IH]; intros pre Hgrid Hpre; simpl; [done|].
  assert (p ∈ pre ++ p :: rest) as Hin_p.
  { apply elem_of_app. right. left. }
  assert (∀ a, a ∈ pre → a ∈ pre ++ p :: rest) as Hin_pre.
  { intros a Ha. apply elem_of_app. by left. }
  assert (∀ b, b ∈ rest → b ∈ pre ++ p :: rest) as Hin_rest.
  { intros b Hb. apply elem_of_app. right. by right. }
  rewrite check_reach_from_find by auto.
  rewrite find_app_skip; cycle 1.
  { intros a Ha. rewrite too_far_sym by auto. by apply Hpre. }
  simpl. rewrite too_far_self by done.
  destruct (List.find (too_far self p) rest) as [q|] eqn:Hfind; [done|].
  simpl. rewrite (cons_middle p pre rest), app_assoc. apply IH.
  - intros q Hq. apply Hgrid. by rewrite (cons_middle p pre rest), app_assoc.
  - intros a b Ha Hb. rewrite <- app_assoc in Hb. simpl in Hb.
    apply elem_of_app in Ha as [Ha | ->%list_elem_of_singleton].
    { by apply Hpre. }
    apply elem_of_app in Hb as [Hb | [-> | Hb]%elem_of_cons].
    + rewrite too_far_sym by auto. by apply Hpre.
    + by apply too_far_self.
    + apply list_elem_of_lookup in Hb as [j Hj].
      by eapply (proj1 (find_None_lookup _ _) Hfind).
Qed.

(** ** The first pair that is too far apart *)

Lemma first_pair_too_far_None self qs :
  first_pair_too_far self qs = None ↔ all_within_reach self qs.
Proof.
  unfold all_within_reach. induction qs as [|p rest IH]; simpl.
  { split; [by intros _ i j p q | done]. }
  destruct (List.find (too_far self p) rest) as [q0|] eqn:Hfind.
  - split; [done|]. intros Hall. exfalso.
    apply find_Some_lookup in Hfind as (j & Hj & Hfar & _).
    specialize (Hall 0%nat (S j) p q0). simpl in Hall.
    rewrite Hall in Hfar; [done | lia | done..].
  - rewrite IH. split.
    + intros Hall [|i] [|j] a b Hlt Ha Hb; simpl in Ha, Hb; try lia.
      * injection Ha as <-. by eapply (proj1 (find_None_lookup _ _) Hfind).
      * apply (Hall i j); [lia | done..].
    + intros Hall i j a b Hlt Ha Hb. apply (Hall (S i) (S j)); [lia | done..].
Qed.

Lemma first_pair_too_far_Some self qs p q :
  first_pair_too_far self qs = Some (p, q) →
  ∃ i j, (i < j)%nat ∧ qs !! i = Some p ∧ qs !! j = Some q ∧
    too_far self p q = true ∧
    ∀ i' j' p' q', (i' < j')%nat → pair_before i' j' i j →
      qs !! i' = Some p' → qs !! j' = Some q' → too_far self p' q' = false.
Proof.
  unfold pair_before. induction qs as [|p0 rest IH]; simpl; [done|].
  destruct (List.find (too_far self p0) rest) as [q0|] eqn:Hfind.
  - intros [= -> ->].
    apply find_Some_lookup in Hfind as (j & Hj & Hfar & Hbefore).
    exists 0%nat, (S j). split_and!; [lia | done.. |].
    intros i' [|j'] p' q' Hlt Hpair Hp' Hq'; [lia|].
    assert (i' = 0%nat) as -> by lia. simpl in Hp', Hq'.
    injection Hp' as <-. apply (Hbefore j'); [lia | done].
  - intros (i & j & Hlt & Hi & Hj & Hfar & Hbefore)%IH.
    exists (S i), (S j). split_and!; [lia | done.. |].
    intros [|i'] [|j'] p' q' Hlt' Hpair Hp' Hq'; simpl in Hp', Hq'; try lia.
    + injection Hp' as <-. by eapply (proj1 (find_None_lookup _ _) Hfind).
    + apply (Hbefore i' j'); [lia | lia | done..].
Qed.

Lemma check_controlled_first_pair self qs :
  (0 <=? control_radius self)%float = true →
  (∀ q, q ∈ qs → isinstance_ThreeDGridQubit q = true) →
  (1 < length qs)%nat →
  Z.of_nat (length qs) ≤ _max_parallel_c self + _max_parallel_t self →
  check_controlled self qs =
    match first_pair_too_far self qs with
    | Some (p, q) => raise (ValueError (TooFarAway p q))
    | None => ok tt
    end.
Proof.
  intros Hr Hgrid Hlen Hcap. unfold check_controlled.
  destruct (Z.gtb_spec (Z.of_nat (length qs))
              (_max_parallel_c self + _max_parallel_t self)); [lia|].
  destruct (Z.gtb_spec (Z.of_nat (length qs)) 1); [|lia].
  apply (check_reach_first_pair self [] qs); [done..|].
  by intros a b ?%elem_of_nil.
Qed.


(** ** What [__init__] builds *)

Lemma init_ok (r : float) (locs : list Qid) self :
  __init__ r locs = ok self →
  self = {| _measurement_duration := {| picos := 5000000000 |};
            _gate_duration := {| picos := 2000000 |};
            _max_parallel_z := 2;
            _max_parallel_xy := 2;
            _max_parallel_c := 10;
            _max_parallel_t := 1;
            control_radius := r;
            qubits := locs |} ∧
  (0 <=? r)%float = true.
Proof.
  unfold __init__.
  destruct (List.find _ locs); [done|].
  destruct (0 <=? r)%float; [|done]. simpl. by intros [= <-].
Qed.

Lemma init_control_radius (r : float) (locs : list Qid) self :
  __init__ r locs = ok self → (0 <=? control_radius self)%float = true.
Proof. by intros [-> ?]%init_ok. Qed.

(** ** [validate_operation], step by step *)

Lemma validate_operation_physical self g qs :
  is_pasqal_device_op (GateOperation g qs) = true →
  check_qubits g qs = ok tt →
  isinstance_MeasurementGate g || isinstance_IdentityGate g = false →
  validate_operation self (GateOperation g qs) =
    (do _ <- check_controlled self qs;
     do _ <- check_parallel_z self g qs;
     check_parallel_xy self g qs).
Proof.
  intros Hnative Hqubits Hkind. unfold validate_operation.
  by rewrite Hnative, Hqubits, Hkind.
Qed.

Lemma several_operands_native g qs :
  (1 < length qs)%nat → is_pasqal_device_op (GateOperation g qs) = true.
Proof.
  intros Hlen. simpl.
  destruct (Z.gtb_spec (Z.of_nat (length qs)) 1); [done | lia].
Qed.

Lemma reach_rule (r : float) (locs : list Qid) self g qs :
  __init__ r locs = ok self →
  check_qubits g qs = ok tt →
  isinstance_MeasurementGate g || isinstance_IdentityGate g = false →
  (1 < length qs)%nat →
  Z.of_nat (length qs) ≤ _max_parallel_c self + _max_parallel_t self →
  (check_controlled self qs = ok tt ↔ all_within_reach self qs) ∧
  (all_within_reach self qs →
     validate_operation self (GateOperation g qs) =
       (do _ <- check_parallel_z self g qs; check_parallel_xy self g qs)) ∧
  (¬ all_within_reach self qs →
     ∃ i j p q,
       (i < j)%nat ∧ qs !! i = Some p ∧ qs !! j = Some q ∧
       too_far self p q = true ∧
       (∀ i' j' p' q', (i' < j')%nat → pair_before i' j' i j →
          qs !! i' = Some p' → qs !! j' = Some q' →
          too_far self p' q' = false) ∧
       validate_operation self (GateOperation g qs) =
         raise (ValueError (TooFarAway p q))).
Proof.
  intros Hinit Hqubits Hkind Hlen Hcap.
  pose proof (init_control_radius _ _ _ Hinit) as Hr.
  pose proof (proj1 (check_qubits_ok g qs) Hqubits) as Hgrid.
  pose proof (check_controlled_first_pair self qs Hr Hgrid Hlen Hcap) as Hctl.
  rewrite validate_operation_physical, Hctl
    by auto using several_operands_native.
  rewrite <- first_pair_too_far_None.
  destruct (first_pair_too_far self qs) as [[p q]|] eqn:Hfirst.
  - split_and!; [done | done |]. intros _.
    apply first_pair_too_far_Some in Hfirst
      as (i & j & Hlt & Hi & Hj & Hfar & Hbefore).
    by exists i, j, p, q.
  - split_and!; done.
Qed.

(** ** The caps on parallel rotations *)

Lemma parallel_xy_rule self g qs :
  isinstance_XPowGate g || isinstance_YPowGate g ||
    isinstance_PhasedXPowGate g = true →
  check_parallel_xy self g qs =
    if bool_decide (Z.of_nat (length qs) > _max_parallel_xy self ∧
                    length qs ≠ length (qubit_list self))
    then raise (ValueError BadNumberOfXYGates)
    else ok tt.
Proof.
  intros Hxy. unfold check_parallel_xy. rewrite Hxy.
  destruct (Z.gtb_spec (Z.of_nat (length qs)) (_max_parallel_xy self));
    destruct (Nat.eqb_spec (length qs) (length (qubit_list self)));
    simpl; case_bool_decide; try done; lia.
Qed.


Lemma xy_gate_native g qs :
  isinstance_XPowGate g || isinstance_YPowGate g ||
    isinstance_PhasedXPowGate g = true →
  is_pasqal_device_op (GateOperation g qs) = true.
Proof.
  simpl. destruct (isinstance_XPowGate g), (isinstance_YPowGate g),
    (isinstance_PhasedXPowGate g); try done;
    intros _; rewrite ?orb_true_r; done.
Qed.

Lemma qubit_list_length self :
  length (qubit_list self) = length (remove_dups (qubits self)).
Proof.
  unfold qubit_list, qubit_set.
  apply Permutation_length, NoDup_Permutation.
  - apply NoDup_elements.
  - apply NoDup_remove_dups.
  - intros q.
    by rewrite elem_of_elements, elem_of_list_to_set, elem_of_remove_dups.
Qed.

(** C5, as amended. Take an operation whose gate is an X, Y or phased
    rotation, on grid qubits. When it has passed the checks that come
    before the X/Y cap, [validate_operation] raises "Bad number of X/Y
    gates in parallel" exactly when the number of operands exceeds
    [_max_parallel_xy] and differs from the number of distinct Locations
    of the device, and accepts the operation otherwise: an operation with
    as many operands as the device has Locations is exempt from this cap.
    It is exempt from this cap only: whatever the number of Locations, the
    operation is refused as acting on too many qubits when it has more
    than [_max_parallel_c + _max_parallel_t] operands, and as too far away
    for the first pair of operands whose distance exceeds
    [control_radius]. *)
Theorem xy_cap_exempts_full_broadcast_only self g qs :
  isinstance_XPowGate g || isinstance_YPowGate g ||
    isinstance_PhasedXPowGate g = true →
  check_qubits g qs = ok tt →
  isinstance_MeasurementGate g || isinstance_IdentityGate g = false →
  (check_controlled self qs = ok tt →
   check_parallel_z self g qs = ok tt →
   (validate_operation self (GateOperation g qs) =
      raise (ValueError BadNumberOfXYGates) ↔
    Z.of_nat (length qs) > _max_parallel_xy self ∧
    length qs ≠ length (remove_dups (qubits self))) ∧
   (¬ (Z.of_nat (length qs) > _max_parallel_xy self ∧
       length qs ≠ length (remove_dups (qubits self))) →
    validate_operation self (GateOperation g qs) = ok tt) ∧
   (length qs = length (remove_dups (qubits self)) →
    validate_operation self (GateOperation g qs) = ok tt)) ∧
  (Z.of_nat (length qs) > _max_parallel_c self + _max_parallel_t self →
   validate_operation self (GateOperation g qs) =
     raise (ValueError TooManyQubitsControlled)) ∧
  (∀ p q,
     (0 <=? control_radius self)%float = true →
     (1 < length qs)%nat →
     Z.of_nat (length qs) ≤ _max_parallel_c self + _max_parallel_t self →
     first_pair_too_far self qs = Some (p, q) →
     validate_operation self (GateOperation g qs) =
       raise (ValueError (TooFarAway p q))).
Proof.
  intros Hxy Hqubits Hkind.
  rewrite validate_operation_physical by auto using xy_gate_native.
  split_and!.
  - intros Hctl Hz. rewrite Hctl, Hz. simpl.
    rewrite parallel_xy_rule, qubit_list_length by done.
    case_bool_decide as Hcond.
    + split_and!; [done | tauto | lia].
    + split_and!; [split; [done | tauto] | done | done].
  - intros Hmany. unfold check_controlled.
    by destruct (Z.gtb_spec (Z.of_nat (length qs))
                   (_max_parallel_c self + _max_parallel_t self)); [|lia].
  - intros p q Hr Hlen Hcap Hfirst.
    rewrite check_controlled_first_pair;
      [by rewrite Hfirst | done | | done | done].
    by apply (check_qubits_ok g).
Qed.

(** C8, as amended. The values compared for equality are, in order, the
    two durations, [_max_parallel_z], [_max_parallel_xy], [_max_parallel_c],
    [control_radius] and [qubits]. [_max_parallel_t] is not among them:
    changing it leaves the tuple as it is, and on a device built by
    [__init__] the tuple holds the two durations, the caps 2, 2 and 10, the
    radius and the Locations, and not the target cap. The Locations are
    there as the sequence that was given, in its order and with its
    repetitions: devices with the same values have the same sequence
    [qubits]. What is serialized is [control_radius] and [qubits] alone. *)
Theorem equality_values_and_json_fields self :
  _value_equality_values_ self =
    [ VDuration (_measurement_duration self);
      VDuration (_gate_duration self);
      VInt (_max_parallel_z self);
      VInt (_max_parallel_xy self);
      VInt (_max_parallel_c self);
      VFloat (control_radius self);
      VQubits (qubits self) ] ∧
  (∀ t : Z,
     _value_equality_values_
       {| _measurement_duration := _measurement_duration self;
          _gate_duration := _gate_duration self;
          _max_parallel_z := _max_parallel_z self;
          _max_parallel_xy := _max_parallel_xy self;
          _max_parallel_c := _max_parallel_c self;
          _max_parallel_t := t;
          control_radius := control_radius self;
          qubits := qubits self |} =
     _value_equality_values_ self) ∧
  (∀ (r : float) (locs : list Qid),
     __init__ r locs = ok self →
     _value_equality_values_ self =
       [ VDuration {| picos := 5000000000 |};
         VDuration {| picos := 2000000 |};
         VInt 2; VInt 2; VInt 10; VFloat r; VQubits locs ] ∧
     VInt (_max_parallel_t self) ∉ _value_equality_values_ self) ∧
  (∀ self' : PasqalDevice,
     _value_equality_values_ self = _value_equality_values_ self' →
     qubits self = qubits self') ∧
  _json_dict_ self =
    [ ("control_radius"%string, VFloat (control_radius self));
      ("qubits"%string, VQubits (qubits self)) ].
Proof.
  split_and!; [done | done | | | done].
  - intros r locs [-> _]%init_ok. split; [done|]. intros Hin.
    repeat (apply elem_of_cons in Hin as [Hin|Hin]; [discriminate Hin|]).
    by apply elem_of_nil in Hin.
  - intros self'. unfold _value_equality_values_. by intros [= _ _ _ _ _ _ ?].
Qed.

End validate.

(** ** The scenario of the unit cube *)

#[local] Existing Instance cirq_catalog.

Lemma cube_device_init : @__init__ cirq_catalog 1.5 unit_cube = ok cube_device.
Proof. reflexivity. Qed.

Lemma reach_scenario (C : GateCatalog) (locs : list Qid)
    (self : PasqalDevice) (g : Gate) :
  __init__ 1.5 locs = ok self →
  isinstance_MeasurementGate g || isinstance_IdentityGate g = false →
  validate_operation self
    (GateOperation g [ThreeDGridQubit 0 0 0; ThreeDGridQubit 0 0 1]) = ok tt ∧
  validate_operation self
    (GateOperation g [ThreeDGridQubit 0 0 0; ThreeDGridQubit 2 0 0]) =
    raise (ValueError
             (TooFarAway (ThreeDGridQubit 0 0 0) (ThreeDGridQubit 2 0 0))).
Proof.
  intros [-> _]%init_ok Hkind.
  rewrite !validate_operation_physical
    by (try done; by apply several_operands_native; simpl; lia).
  split.
  - unfold check_parallel_z, check_parallel_xy. simpl.
    by destruct (isinstance_ZPowGate g),
      (isinstance_XPowGate g || isinstance_YPowGate g ||
       isinstance_PhasedXPowGate g).
  - reflexivity.
Qed.

(** C3. On a device built by [__init__], take an operation that has
    reached the reach check: its operands are grid qubits, its gate is
    neither a measurement nor an identity, and it has more than one operand
    and no more than [_max_parallel_c + _max_parallel_t]. The check passes
    exactly when no two operands are too far apart, [validate_operation]
    then going on with the caps on rotations; otherwise
    [validate_operation] raises "Qubits p, q are too far away" for the
    first pair of operands, in lexicographic order of their positions,
    whose distance exceeds [control_radius]. With a control radius of 1.5,
    a two-operand gate on (0,0,0) and (0,0,1) is accepted and the same
    gate on (0,0,0) and (2,0,0) is refused as too far away. *)
Theorem operands_must_be_within_reach :
  (∀ (C : GateCatalog) (r : float) (locs : list Qid)
     (self : PasqalDevice) (g : Gate) (qs : list Qid),
     __init__ r locs = ok self →
     check_qubits g qs = ok tt →
     isinstance_MeasurementGate g || isinstance_IdentityGate g = false →
     (1 < length qs)%nat →
     Z.of_nat (length qs) ≤ _max_parallel_c self + _max_parallel_t self →
     (check_controlled self qs = ok tt ↔ all_within_reach self qs) ∧
     (all_within_reach self qs →
        validate_operation self (GateOperation g qs) =
          (do _ <- check_parallel_z self g qs;
           check_parallel_xy self g qs)) ∧
     (¬ all_within_reach self qs →
        ∃ i j p q,
          (i < j)%nat ∧ qs !! i = Some p ∧ qs !! j = Some q ∧
          too_far self p q = true ∧
          (∀ i' j' p' q', (i' < j')%nat → pair_before i' j' i j →
             qs !! i' = Some p' → qs !! j' = Some q' →
             too_far self p' q' = false) ∧
          validate_operation self (GateOperation g qs) =
            raise (ValueError (TooFarAway p q)))) ∧
  (∀ (C : GateCatalog) (locs : list Qid) (self : PasqalDevice) (g : Gate),
     __init__ 1.5 locs = ok self →
     isinstance_MeasurementGate g || isinstance_IdentityGate g = false →
     validate_operation self
       (GateOperation g [ThreeDGridQubit 0 0 0; ThreeDGridQubit 0 0 1]) =
       ok tt ∧
     validate_operation self
       (GateOperation g [ThreeDGridQubit 0 0 0; ThreeDGridQubit 2 0 0]) =
       raise (ValueError
                (TooFarAway (ThreeDGridQubit 0 0 0) (ThreeDGridQubit 2 0 0)))).
Proof.
  split.
  - intros C r locs self g qs. apply reach_rule.
  - apply reach_scenario.
Qed.


(** ** The claims at concrete operations *)

Lemma face_device_init : @__init__ cirq_catalog 1.5 unit_face = ok face_device.
Proof. reflexivity. Qed.

(** An H on one site: the rewriting collaborator's result passes the
    check, the careless one's does not, and the error names H. *)
Lemma decomposition_checked_witness :
  let q := ThreeDGridQubit 0 0 0 in
  outcome (@decompose_operation cirq_catalog rewriting_decomposer
             (cirq_op HPowGate [q])) =
    ok [cirq_op YPowGate [q]; cirq_op XPowGate [q]] ∧
  outcome (@decompose_operation cirq_catalog careless_decomposer
             (cirq_op HPowGate [q])) =
    raise (TypeError (@DontKnowHowToWorkWith cirq_catalog HPowGate)).
Proof.
  intros q. split.
  - apply (proj1 (@decomposition_is_checked_again cirq_catalog
                    rewriting_decomposer HPowGate [q]
                    [cirq_op YPowGate [q]; cirq_op XPowGate [q]]
                    eq_refl eq_refl)).
    intros dec Hin.
    apply elem_of_cons in Hin as [->|Hin]; [reflexivity|].
    apply elem_of_cons in Hin as [->|Hin]; [reflexivity|].
    by apply elem_of_nil in Hin.
  - apply (proj2 (@decomposition_is_checked_again cirq_catalog
                    careless_decomposer HPowGate [q]
                    [cirq_op YPowGate [q]; cirq_op HPowGate [q]]
                    eq_refl eq_refl) (cirq_op HPowGate [q])).
    + right. left.
    + reflexivity.
Defined.

(** An X rotation on one site is native. *)
Lemma native_operation_witness :
  let op := cirq_op XPowGate [ThreeDGridQubit 0 0 0] in
  @decompose_operation cirq_catalog rewriting_decomposer op =
    mkRun [] (ok [op]).
Proof.
  intros op.
  apply (@native_operation_is_kept cirq_catalog rewriting_decomposer op).
  reflexivity.
Defined.

(** An operation of another class. *)
Lemma non_gate_operation_witness :
  let operation := @OtherOperation cirq_catalog 7 in
  is_pasqal_device_op operation = false ∧
  @decompose_operation cirq_catalog rewriting_decomposer operation =
    mkRun [] (raise (TypeError (NotAGateOperation operation))).
Proof.
  intros operation.
  apply (@non_gate_operation_is_refused cirq_catalog rewriting_decomposer
           operation).
  reflexivity.
Defined.

(** A CZ-like gate on three sites of the cube, the last one across a space
    diagonal from the first. *)
Lemma within_reach_witness :
  let g : @Gate cirq_catalog := CZPowGate in
  let qs := [ThreeDGridQubit 0 0 0; ThreeDGridQubit 0 1 1;
             ThreeDGridQubit 1 1 1] in
  (check_controlled cube_device qs = ok tt ↔
     all_within_reach cube_device qs) ∧
  (all_within_reach cube_device qs →
     validate_operation cube_device (GateOperation g qs) =
       (do _ <- check_parallel_z cube_device g qs;
        check_parallel_xy cube_device g qs)) ∧
  (¬ all_within_reach cube_device qs →
     ∃ i j p q,
       (i < j)%nat ∧ qs !! i = Some p ∧ qs !! j = Some q ∧
       too_far cube_device p q = true ∧
       (∀ i' j' p' q', (i' < j')%nat → pair_before i' j' i j →
          qs !! i' = Some p' → qs !! j' = Some q' →
          too_far cube_device p' q' = false) ∧
       validate_operation cube_device (GateOperation g qs) =
         raise (ValueError (TooFarAway p q))).
Proof.
  intros g qs.
  apply (proj1 operands_must_be_within_reach cirq_catalog 1.5%float
           unit_cube cube_device g qs).
  - exact cube_device_init.
  - reflexivity.
  - reflexivity.
  - simpl; lia.
  - simpl; lia.
Defined.

(** An X rotation on the four Locations of the face device: more operands
    than the cap of two, as many as the device has Locations, accepted. *)
Lemma full_broadcast_accepted_witness :
  let g : @Gate cirq_catalog := XPowGate in
  Z.of_nat (length unit_face) > _max_parallel_xy face_device ∧
  length unit_face = length (remove_dups (qubits face_device)) ∧
  validate_operation face_device (GateOperation g unit_face) = ok tt.
Proof.
  intros g. split_and!; [simpl; lia | reflexivity |].
  apply (proj2 (proj2
           (proj1 (@xy_cap_exempts_full_broadcast_only cirq_catalog
                     face_device g unit_face eq_refl eq_refl eq_refl)
              eq_refl eq_refl))).
  reflexivity.
Defined.

(** C5 as stated fails: a full-device broadcast is not always allowed. On
    the device [__init__] builds on the unit cube with radius 1.5, an X
    rotation on all eight Locations is refused because two of them are too
    far apart; on a device of twelve Locations in a line, with a radius
    that reaches across all of it, an X rotation on all twelve is refused
    as acting on too many qubits. *)
Lemma full_broadcast_can_be_refused :
  let g : @Gate cirq_catalog := XPowGate in
  let line := ThreeDGridQubit 0 0 <$> seqZ 0 12 in
  let line_device : PasqalDevice :=
    {| _measurement_duration := {| picos := 5000000000 |};
       _gate_duration := {| picos := 2000000 |};
       _max_parallel_z := 2;
       _max_parallel_xy := 2;
       _max_parallel_c := 10;
       _max_parallel_t := 1;
       control_radius := 100;
       qubits := line |} in
  (@__init__ cirq_catalog 1.5 unit_cube = ok cube_device ∧
   length unit_cube = length (remove_dups (qubits cube_device)) ∧
   validate_operation cube_device (GateOperation g unit_cube) =
     raise (ValueError
              (TooFarAway (ThreeDGridQubit 0 0 0) (ThreeDGridQubit 1 1 1)))) ∧
  (@__init__ cirq_catalog 100 line = ok line_device ∧
   length line = length (remove_dups (qubits line_device)) ∧
   validate_operation line_device (GateOperation g line) =
     raise (ValueError TooManyQubitsControlled)).
Proof. repeat split; vm_compute; reflexivity. Qed.

(** The device on the unit cube. *)
Lemma equality_values_witness :
  _value_equality_values_ cube_device =
    [ VDuration {| picos := 5000000000 |};
      VDuration {| picos := 2000000 |};
      VInt 2; VInt 2; VInt 10; VFloat 1.5; VQubits unit_cube ] ∧
  VInt (_max_parallel_t cube_device) ∉ _value_equality_values_ cube_device.
Proof.
  apply (proj1 (proj2 (proj2
           (@equality_values_and_json_fields cirq_catalog cube_device)))
           1.5%float unit_cube).
  exact cube_device_init.
Defined.

(** C8 as stated fails on both counts. On a device that [__init__]
    builds, the values compared for equality are seven and the target cap
    is not one of them. And the values do not hold the Location set: two
    built devices with the same radius and the same set of Locations,
    given in another order or with a repetition, have different
    values. *)
Lemma equality_values_lack_target_cap_and_location_set :
  let a := ThreeDGridQubit 0 0 0 in
  let b := ThreeDGridQubit 0 0 1 in
  let device (locs : list Qid) : PasqalDevice :=
    {| _measurement_duration := {| picos := 5000000000 |};
       _gate_duration := {| picos := 2000000 |};
       _max_parallel_z := 2;
       _max_parallel_xy := 2;
       _max_parallel_c := 10;
       _max_parallel_t := 1;
       control_radius := 1.5;
       qubits := locs |} in
  (@__init__ cirq_catalog 1.5 unit_cube = ok cube_device ∧
   length (_value_equality_values_ cube_device) = 7%nat ∧
   VInt (_max_parallel_t cube_device) ∉ _value_equality_values_ cube_device) ∧
  (@__init__ cirq_catalog 1.5 [a; b] = ok (device [a; b]) ∧
   @__init__ cirq_catalog 1.5 [b; a] = ok (device [b; a]) ∧
   @__init__ cirq_catalog 1.5 [a; b; b] = ok (device [a; b; b]) ∧
   qubit_set (device [b; a]) = qubit_set (device [a; b]) ∧
   qubit_set (device [a; b; b]) = qubit_set (device [a; b]) ∧
   _value_equality_values_ (device [b; a]) ≠
     _value_equality_values_ (device [a; b]) ∧
   _value_equality_values_ (device [a; b; b]) ≠
     _value_equality_values_ (device [a; b])).
Proof.
  intros a b device. split.
  - split_and!; [reflexivity | reflexivity |]. intros Hin.
    repeat (apply elem_of_cons in Hin as [Hin|Hin]; [discriminate Hin|]).
    by apply elem_of_nil in Hin.
  - split_and!; [reflexivity | reflexivity | reflexivity | | | |].
    + unfold qubit_set. simpl. set_solver.
    + unfold qubit_set. simpl. set_solver.
    + intros Heq. discriminate Heq.
    + intros Heq. discriminate Heq.
Qed.

(** On the face device an X rotation on all four Locations is accepted, on
    three of them it is refused; a Z rotation on three is refused too, and
    a measurement of two sites that are too far apart is accepted. *)
Example face_device_rotations :
  let g : cirq_gate → @Gate cirq_catalog := λ g, g in
  validate_operation face_device (GateOperation (g XPowGate) unit_face) =
    ok tt ∧
  validate_operation face_device
    (GateOperation (g XPowGate) (take 3 unit_face)) =
    raise (ValueError BadNumberOfXYGates) ∧
  validate_operation face_device
    (GateOperation (g ZPowGate) (take 3 unit_face)) =
    raise (ValueError TooManyZGates) ∧
  validate_operation face_device
    (GateOperation (g MeasurementGate)
       [ThreeDGridQubit 0 0 0; ThreeDGridQubit 5 5 5]) = ok tt.
Proof. repeat split; vm_compute; reflexivity. Qed.

End PasqalFacts.

(* ===================================================================== *)
(** * More on Part I: equality as a whole *)
(* ===================================================================== *)

Module GateOpMore.
Import GateOp GateOpFacts.

Section equality.

Context `{GateModel}.

Implicit Types (a b c op : GateOperation) (key : nat → Z).

#[local] Existing Instances Single_inj Group_of_pair_inj.

Lemma equals_true_eq_tuple a b :
  equals a b = true → _eq_tuple a = _eq_tuple b.
Proof.
  unfold equals, __eq__.
  destruct (isinstance_of_type b a); simpl.
  { by intros ?%bool_decide_eq_true. }
  destruct (isinstance_of_type a b); simpl; [|done].
  by intros ?%bool_decide_eq_true.
Qed.

Lemma equals_comparable a b :
  equals a b = true →
  isinstance_of_type b a || isinstance_of_type a b = true.
Proof.
  unfold equals, __eq__.
  destruct (isinstance_of_type b a); simpl; [done|].
  by destruct (isinstance_of_type a b).
Qed.

Lemma eq_tuple_equals a b :
  isinstance_of_type b a || isinstance_of_type a b = true →
  _eq_tuple a = _eq_tuple b → equals a b = true.
Proof.
  intros Hcmp Heq. unfold equals, __eq__.
  destruct (isinstance_of_type b a); simpl.
  { by apply bool_decide_eq_true. }
  simpl in Hcmp. rewrite Hcmp. simpl. by apply bool_decide_eq_true.
Qed.

(** X1. [a == b] and [b == a] always agree, also between an instance of a
    class and an instance of a class derived from it; so do [a != b] and
    [b != a], each the negation of the corresponding [==]. *)
Theorem equals_symmetric a b :
  equals a b = equals b a ∧
  __ne__ a b = __ne__ b a ∧
  __ne__ a b = negb (equals a b).
Proof.
  assert (equals a b = equals b a) as Hsym.
  { unfold equals, __eq__.
    destruct (isinstance_of_type b a), (isinstance_of_type a b); simpl;
      try done; apply bool_decide_ext; split; congruence. }
  unfold __ne__. by rewrite Hsym.
Qed.

(** X2. Operations that compare equal have the same hash, whatever their
    classes. *)
Theorem equal_operations_hash_equal a b :
  equals a b = true → __hash__ a = __hash__ b.
Proof. intros Heq%equals_true_eq_tuple. unfold __hash__. by rewrite Heq. Qed.

(** X3. [==] is reflexive, and transitive whenever the two outer
    operations are comparable (one an instance of the other's class). *)
Theorem equals_reflexive_transitive :
  (∀ a, equals a a = true) ∧
  (∀ a b c,
     equals a b = true → equals b c = true →
     isinstance_of_type c a || isinstance_of_type a c = true →
     equals a c = true).
Proof.
  split.
  - intros a. apply eq_tuple_equals; [|done].
    unfold isinstance_of_type. by rewrite issubclass_refl.
  - intros a b c Hab%equals_true_eq_tuple Hbc%equals_true_eq_tuple Hcmp.
    apply eq_tuple_equals; [done | congruence].
Qed.


(** ** The equivalence key, read back *)

Lemma group_items_nonempty key (qs : list QubitId) k (s : gset QubitId) :
  (k, s) ∈ group_items (group_loop key 0 qs ∅) ↔
    s ≠ ∅ ∧ ∀ q, q ∈ s ↔ ∃ n, qs !! n = Some q ∧ key n = k.
Proof.
  rewrite elem_of_group_items, group_of_nil_iff. split.
  - intros [Hne ->]. split; [done|]. intros q.
    by rewrite elem_of_list_to_set, elem_of_group_of.
  - intros [Hne Hs].
    assert (s = list_to_set (group_of key 0 qs k)) as ->; [|done].
    apply set_eq. intros q.
    by rewrite Hs, elem_of_list_to_set, elem_of_group_of.
Qed.

Lemma sorted_items_same_groups key (qs1 qs2 : list QubitId) :
  sorted (group_items (group_loop key 0 qs1 ∅)) =
    sorted (group_items (group_loop key 0 qs2 ∅)) →
  same_groups key qs1 qs2.
Proof.
  intros Hsorted.
  assert (∀ x, x ∈ group_items (group_loop key 0 qs1 ∅) ↔
               x ∈ group_items (group_loop key 0 qs2 ∅)) as Hitems.
  { intros x.
    rewrite <- (sorted_Permutation (group_items (group_loop key 0 qs1 ∅))).
    rewrite <- (sorted_Permutation (group_items (group_loop key 0 qs2 ∅))).
    by rewrite Hsorted. }
  assert (∀ qsa qsb k (q : QubitId),
            (∀ x, x ∈ group_items (group_loop key 0 qsa ∅) →
                  x ∈ group_items (group_loop key 0 qsb ∅)) →
            (∃ n, qsa !! n = Some q ∧ key n = k) →
            ∃ n, qsb !! n = Some q ∧ key n = k) as Hhalf.
  { intros qsa qsb k q Hsub Hq.
    set (s := list_to_set (group_of key 0 qsa k) : gset QubitId).
    assert (q ∈ s) as Hqs.
    { unfold s. by rewrite elem_of_list_to_set, elem_of_group_of. }
    assert ((k, s) ∈ group_items (group_loop key 0 qsa ∅)) as Hin.
    { apply elem_of_group_items. split; [|done].
      rewrite group_of_nil_iff. fold s. intros Hempty.
      rewrite Hempty in Hqs. by apply not_elem_of_empty in Hqs. }
    apply Hsub, group_items_nonempty in Hin as [_ Hs]. by apply Hs. }
  intros k q. split; apply Hhalf; intros x; apply Hitems.
Qed.

(** X4. For a gate implementing InterchangeableQubitsGate, two operations
    of one class with equal gates are equal exactly when their operand
    lists put the same Locations in every group. *)
Theorem grouped_operations_equal_iff a b key :
  op_type a = op_type b →
  gate a = gate b →
  try_cast_InterchangeableQubitsGate (gate a) = Some key →
  equals a b = true ↔ same_groups key (qubits a) (qubits b).
Proof.
  intros Hty Hgate Hcast. rewrite equals_same_type by done.
  rewrite bool_decide_eq_true. split.
  - unfold _eq_tuple, _group_interchangeable_qubits.
    rewrite <- Hgate, Hcast. intros [= Heq].
    apply sorted_items_same_groups. eapply (inj (fmap _)), Heq.
  - by apply same_groups_eq_tuple.
Qed.

(** X5. For a gate that does not implement InterchangeableQubitsGate, two
    operations of one class are equal exactly when their gates are equal
    and their operand sequences are the same, position by position. *)
Theorem ungrouped_operations_equal_iff a b :
  op_type a = op_type b →
  try_cast_InterchangeableQubitsGate (gate a) = None →
  equals a b = true ↔ gate a = gate b ∧ qubits a = qubits b.
Proof.
  intros Hty Hcast. rewrite equals_same_type by done.
  rewrite bool_decide_eq_true.
  unfold _eq_tuple, _group_interchangeable_qubits. split.
  - intros [= Hgate Heq]. split; [done|].
    rewrite <- Hgate, Hcast in Heq. by apply (inj (fmap Single)) in Heq.
  - intros [Hgate Hqs]. by rewrite <- Hgate, Hcast, Hqs.
Qed.

(** X6. For a gate implementing InterchangeableQubitsGate the key is a
    sequence of groups in strictly increasing order of their group keys,
    with one group for every key that some operand position has and no
    other; each group is the non-empty set of the operands at the
    positions of its key. *)
Theorem grouped_key_is_canonical op key :
  try_cast_InterchangeableQubitsGate (gate op) = Some key →
  ∃ items : list (Z * gset QubitId),
    _group_interchangeable_qubits op = (λ kv, Group kv.1 kv.2) <$> items ∧
    StronglySorted key_lt items ∧
    ∀ k s, (k, s) ∈ items ↔
      s ≠ ∅ ∧ ∀ q, q ∈ s ↔ ∃ n, qubits op !! n = Some q ∧ key n = k.
Proof.
  intros Hcast. unfold _group_interchangeable_qubits. rewrite Hcast.
  exists (sorted (group_items (group_loop key 0 (qubits op) ∅))).
  split_and!; [done | |].
  - apply sorted_StronglySorted, NoDup_group_items_keys.
  - intros k s. rewrite sorted_Permutation. apply group_items_nonempty.
Qed.

(** X7. When the gate sends every operand position to one and the same
    group, any rearrangement of the operands gives an equal operation with
    the same hash. *)
Theorem symmetric_gate_ignores_operand_order op key (qs' : list QubitId) :
  try_cast_InterchangeableQubitsGate (gate op) = Some key →
  (∀ i j, (i < length (qubits op))%nat → (j < length (qubits op))%nat →
          key i = key j) →
  qs' ≡ₚ qubits op →
  equals op (with_qubits op qs') = true ∧
  __hash__ (with_qubits op qs') = __hash__ op.
Proof.
  intros Hcast Hconst Hperm.
  assert (_eq_tuple op = _eq_tuple (with_qubits op qs')) as Heq.
  { apply (same_groups_eq_tuple _ _ key); [done..|]. simpl.
    assert (∀ l1 l2 : list QubitId, l1 ≡ₚ l2 →
              (∀ i j, (i < length l1)%nat → (j < length l1)%nat →
                      key i = key j) →
              ∀ k q, (∃ n, l1 !! n = Some q ∧ key n = k) →
                     ∃ n, l2 !! n = Some q ∧ key n = k) as Hhalf.
    { intros l1 l2 Hp Hc k q (n & Hn & Hk).
      assert (q ∈ l2) as Hq.
      { rewrite <- Hp. apply list_elem_of_lookup. by exists n. }
      apply list_elem_of_lookup in Hq as [m Hm]. exists m. split; [done|].
      rewrite <- Hk. apply Hc.
      - rewrite Hp. by eapply lookup_lt_Some.
      - by eapply lookup_lt_Some. }
    intros k q. split.
    - by apply Hhalf.
    - apply Hhalf; [done|]. intros i j. rewrite Hperm. apply Hconst. }
  rewrite equals_same_type by done. unfold __hash__. rewrite <- Heq.
  by rewrite bool_decide_eq_true_2.
Qed.

(** X8. After the loop over the operands, the dictionary has an entry for
    a key exactly when some operand position has that key, and the entry
    lists the operands at those positions in operand order, repetitions
    included. *)
Theorem groups_dictionary_lookup key (qs : list QubitId) k :
  (is_Some (group_loop key 0 qs ∅ !! k) ↔
     ∃ n, (n < length qs)%nat ∧ key n = k) ∧
  (∀ g, group_loop key 0 qs ∅ !! k = Some g → g = group_of key 0 qs k).
Proof.
  rewrite group_loop_empty_lookup. split.
  - split.
    + intros [g Hg]. destruct (group_of key 0 qs k) as [|q g'] eqn:Hgo;
        [done|].
      assert (q ∈ group_of key 0 qs k) as Hq by (rewrite Hgo; left).
      apply elem_of_group_of in Hq as (n & Hn & Hk).
      exists n. split; [by eapply lookup_lt_Some | done].
    + intros (n & Hn & Hk).
      destruct (lookup_lt_is_Some_2 qs n Hn) as [q Hq].
      assert (q ∈ group_of key 0 qs k) as Hin.
      { apply elem_of_group_of. by exists n. }
      destruct (group_of key 0 qs k); [by apply elem_of_nil in Hin | done].
  - intros g. by destruct (group_of key 0 qs k); intros [= <-].
Qed.

End equality.

(** ** At concrete operations of [demo_model] *)

Lemma equal_hash_witness :
  let a := @mkGateOperation demo_model GateOperation_class CZ [1; 2]%nat in
  let b := @mkGateOperation demo_model Derived_class CZ [2; 1]%nat in
  __hash__ a = __hash__ b.
Proof.
  intros a b. apply (equal_operations_hash_equal a b). reflexivity.
Defined.

Lemma equals_transitive_witness :
  let a := @mkGateOperation demo_model Derived_class CZ [1; 2; 2]%nat in
  let b := @mkGateOperation demo_model GateOperation_class CZ [2; 1]%nat in
  let c := @mkGateOperation demo_model Derived_class CZ [1; 1; 2]%nat in
  equals a c = true.
Proof.
  intros a b c.
  apply (proj2 (@equals_reflexive_transitive demo_model) a b c);
    reflexivity.
Defined.

Lemma grouped_equal_iff_witness :
  let a := @mkGateOperation demo_model GateOperation_class CCX [1; 2; 3]%nat in
  let b := @mkGateOperation demo_model GateOperation_class CCX [2; 1; 3]%nat in
  equals a b = true ↔
    same_groups (λ i, if (i <? 2)%nat then 0 else 1) (qubits a) (qubits b).
Proof.
  intros a b.
  apply (grouped_operations_equal_iff a b
           (λ i, if (i <? 2)%nat then 0 else 1)); reflexivity.
Defined.

Lemma ungrouped_equal_iff_witness :
  let a := @mkGateOperation demo_model GateOperation_class CNOT [1; 2]%nat in
  let b := @mkGateOperation demo_model GateOperation_class CNOT [2; 1]%nat in
  equals a b = true ↔ gate a = gate b ∧ qubits a = qubits b.
Proof.
  intros a b. apply (ungrouped_operations_equal_iff a b); reflexivity.
Defined.

Lemma grouped_key_witness :
  let op := @mkGateOperation demo_model GateOperation_class CCX [5; 1; 5]%nat in
  let key := λ i : nat, if (i <? 2)%nat then 0 else 1 in
  ∃ items : list (Z * gset (@QubitId demo_model)),
    _group_interchangeable_qubits op = (λ kv, Group kv.1 kv.2) <$> items ∧
    StronglySorted key_lt items ∧
    ∀ k s, (k, s) ∈ items ↔
      s ≠ ∅ ∧ ∀ q, q ∈ s ↔ ∃ n, qubits op !! n = Some q ∧ key n = k.
Proof.
  intros op key. apply (grouped_key_is_canonical op key). reflexivity.
Defined.

Lemma groups_dictionary_witness :
  is_Some (@group_loop demo_model (λ i, if (i <? 2)%nat then 0 else 1) 0
             [5; 1; 5]%nat ∅ !! 1).
Proof.
  apply (proj1 (@groups_dictionary_lookup demo_model
                  (λ i, if (i <? 2)%nat then 0 else 1) [5; 1; 5]%nat 1)).
  exists 2%nat. split; [simpl; lia | reflexivity].
Defined.

Lemma symmetric_gate_witness :
  let op := @mkGateOperation demo_model GateOperation_class CZ [1; 2; 3]%nat in
  let op' := @mkGateOperation demo_model GateOperation_class CZ [2; 3; 1]%nat in
  equals op op' = true ∧ __hash__ op' = __hash__ op.
Proof.
  intros op op'.
  apply (symmetric_gate_ignores_operand_order op (λ _, 0) [2; 3; 1]%nat).
  - reflexivity.
  - reflexivity.
  - change ([2; 3; 1]%nat ≡ₚ [1; 2; 3]%nat).
    apply (Permutation_app_comm [2; 3]%nat [1%nat]).
Defined.

End GateOpMore.

(* ===================================================================== *)
(** * More on Part II: the device as a whole *)
(* ===================================================================== *)

Module PasqalMore.
Import Pasqal PasqalFacts.

Section legalize.

Context `{GateCatalog}.

Implicit Types (self : PasqalDevice) (g : Gate) (p q : Qid) (qs : list Qid).
Implicit Types (operation op dec : Operation).

(** ** [decompose_operation] *)

Lemma check_decomposition_native g (decomposition : list Operation) :
  check_decomposition g decomposition = ok tt →
  ∀ dec, dec ∈ decomposition → is_pasqal_device_op dec = true.
Proof.
  induction decomposition as [|d rest IH]; simpl.
  { by intros _ dec ?%elem_of_nil. }
  destruct (is_pasqal_device_op d) eqn:Hd; simpl; [|done].
  intros Hrest dec [->|Hin]%elem_of_cons; [done | by apply IH].
Qed.

Lemma decompose_outcome_native {D : Decomposer} op (ds : list Operation) :
  outcome (decompose_operation op) = ok ds →
  ∀ dec, dec ∈ ds → is_pasqal_device_op dec = true.
Proof.
  destruct op as [g qs|name]; [|intros Hout; discriminate Hout].
  unfold decompose_operation.
  destruct (is_pasqal_device_op (GateOperation g qs)) eqn:Hnative;
    cbn [negb outcome].
  - destruct (check_decomposition g [GateOperation g qs]) as [e|[]] eqn:Hchk;
      unfold bind, ok; intros Hout; [discriminate Hout|].
    injection Hout as <-. by apply (check_decomposition_native g).
  - destruct (protocols_decompose _ _) as [e|ds'];
      unfold bind at 1; [intros Hout; discriminate Hout|].
    destruct (check_decomposition g ds') as [e|[]] eqn:Hchk;
      unfold bind, ok; intros Hout; [discriminate Hout|].
    injection Hout as <-. by apply (check_decomposition_native g).
Qed.

Lemma decompose_native {D : Decomposer} op :
  is_pasqal_device_op op = true →
  calls (decompose_operation op) = [] ∧
  outcome (decompose_operation op) = ok [op].
Proof.
  intros Hnative. destruct op as [g qs|name]; [|done].
  unfold decompose_operation. rewrite Hnative. cbn [negb calls outcome].
  split; [done|]. rewrite check_decomposition_ok; [done|].
  by intros dec ->%list_elem_of_singleton.
Qed.

(** X9. A sequence that [decompose_operation] returns holds native
    operations only, whatever the decomposition collaborator does; it is
    the operation alone when the operation is native, and otherwise
    exactly the sequence the collaborator returned. *)
Theorem decomposition_result_is_native {D : Decomposer} op
    (ds : list Operation) :
  outcome (decompose_operation op) = ok ds →
  (∀ dec, dec ∈ ds → is_pasqal_device_op dec = true) ∧
  ((is_pasqal_device_op op = true ∧ ds = [op]) ∨
   (is_pasqal_device_op op = false ∧
    protocols_decompose op is_pasqal_device_op = ok ds)).
Proof.
  intros Hout. split; [by apply (decompose_outcome_native op)|].
  destruct (is_pasqal_device_op op) eqn:Hnative.
  - left. split; [done|].
    destruct (decompose_native op Hnative) as [_ Hok].
    rewrite Hok in Hout. by injection Hout as <-.
  - right. split; [done|].
    destruct op as [g qs|name]; [|discriminate Hout].
    unfold decompose_operation in Hout. rewrite Hnative in Hout.
    cbn [negb outcome] in Hout.
    destruct (protocols_decompose _ _) as [e|ds']; [discriminate Hout|].
    unfold bind at 1 in Hout.
    destruct (check_decomposition g ds') as [e|[]]; [discriminate Hout|].
    by injection Hout as <-.
Qed.

(** X11. An operation on two or more operands is returned as it is,
    whatever its gate, and the decomposition collaborator is not called. *)
Theorem several_operands_never_decomposed {D : Decomposer} g qs :
  (1 < length qs)%nat →
  decompose_operation (GateOperation g qs) = mkRun [] (ok [GateOperation g qs]).
Proof.
  intros Hlen.
  pose proof (decompose_native (GateOperation g qs)
                (several_operands_native g qs Hlen)) as [Hcalls Hout].
  destruct (decompose_operation (GateOperation g qs)) as [cs out].
  simpl in Hcalls, Hout. by rewrite Hcalls, Hout.
Qed.

(** X12. Every operation of a returned sequence is a fixed point: given to
    [decompose_operation] again it comes back alone, without a call of
    the decomposition collaborator. *)
Theorem decomposition_result_is_stable {D : Decomposer} op
    (ds : list Operation) :
  outcome (decompose_operation op) = ok ds →
  ∀ dec, dec ∈ ds →
    calls (decompose_operation dec) = [] ∧
    outcome (decompose_operation dec) = ok [dec].
Proof.
  intros Hout dec Hin. apply decompose_native.
  by apply (decompose_outcome_native op ds).
Qed.

(** X13. [validate_operation] never refuses an operation of a returned
    sequence as unsupported: such an operation is a [GateOperation] and
    validation goes on to the checks of its operands. *)
Theorem decomposition_result_passes_support_checks {D : Decomposer}
    self op (ds : list Operation) :
  outcome (decompose_operation op) = ok ds →
  ∀ dec, dec ∈ ds →
    ∃ g qs, dec = GateOperation g qs ∧
      validate_operation self dec =
        (do _ <- check_qubits g qs;
         if isinstance_MeasurementGate g || isinstance_IdentityGate g
         then ok tt
         else
           do _ <- check_controlled self qs;
           do _ <- check_parallel_z self g qs;
           check_parallel_xy self g qs).
Proof.
  intros Hout dec Hin.
  pose proof (decompose_outcome_native op ds Hout dec Hin) as Hnative.
  destruct dec as [g qs|name]; [|done].
  exists g, qs. split; [done|]. unfold validate_operation.
  by rewrite Hnative.
Qed.

End legalize.

Section validate.

Context `{GateCatalog}.

Implicit Types (self : PasqalDevice) (g : Gate) (p q : Qid) (qs : list Qid).

(** ** Each check of [validate_operation], as a condition *)

Lemma bind_unit_ok (m k : result unit) :
  (do _ <- m; k) = ok tt ↔ m = ok tt ∧ k = ok tt.
Proof.
  destruct m as [e|[]]; simpl; [|by intuition].
  split; [done | by intros [? _]].
Qed.

Lemma validate_ok_checks self g qs :
  validate_operation self (GateOperation g qs) = ok tt ↔
    is_pasqal_device_op (GateOperation g qs) = true ∧
    check_qubits g qs = ok tt ∧
    (isinstance_MeasurementGate g || isinstance_IdentityGate g = true ∨
     (check_controlled self qs = ok tt ∧
      check_parallel_z self g qs = ok tt ∧
      check_parallel_xy self g qs = ok tt)).
Proof.
  unfold validate_operation.
  destruct (is_pasqal_device_op (GateOperation g qs)); cbn [negb];
    [|by split; [|intros [? _]]].
  rewrite bind_unit_ok.
  destruct (isinstance_MeasurementGate g || isinstance_IdentityGate g).
  - by intuition.
  - rewrite !bind_unit_ok. intuition congruence.
Qed.

Lemma check_reach_from_ok self p qs :
  isinstance_ThreeDGridQubit p = true →
  (∀ q, q ∈ qs → isinstance_ThreeDGridQubit q = true) →
  check_reach_from self p qs = ok tt ↔
    ∀ q, q ∈ qs → too_far self p q = false.
Proof.
  intros Hp Hqs. rewrite check_reach_from_find by done.
  destruct (List.find (too_far self p) qs) as [q|] eqn:Hfind.
  - split; [done|]. intros Hall. exfalso.
    apply find_Some_lookup in Hfind as (j & Hj & Hfar & _).
    rewrite Hall in Hfar; [done|]. apply list_elem_of_lookup. by exists j.
  - split; [|done]. intros _ q [j Hj]%list_elem_of_lookup.
    by eapply (proj1 (find_None_lookup _ _) Hfind).
Qed.

Lemma check_reach_ok self (ps qs : list Qid) :
  (∀ p, p ∈ ps → isinstance_ThreeDGridQubit p = true) →
  (∀ q, q ∈ qs → isinstance_ThreeDGridQubit q = true) →
  check_reach self ps qs = ok tt ↔
    ∀ p q, p ∈ ps → q ∈ qs → too_far self p q = false.
Proof.
  intros Hps Hqs. induction ps as [|p ps IH]; simpl.
  { split; [by intros _ p q ?%elem_of_nil | done]. }
  rewrite bind_unit_ok, check_reach_from_ok, IH; cycle 1.
  { intros p' Hp'. apply Hps. by right. }
  { apply Hps. left. }
  { done. }
  split.
  - intros [Hp Hrest] p' q [->|Hp']%elem_of_cons Hq; [by apply Hp|].
    by apply Hrest.
  - intros Hall. split.
    + intros q Hq. apply Hall; [left | done].
    + intros p' q Hp' Hq. apply Hall; [by right | done].
Qed.

Lemma check_controlled_ok self qs :
  (∀ q, q ∈ qs → isinstance_ThreeDGridQubit q = true) →
  check_controlled self qs = ok tt ↔
    Z.of_nat (length qs) ≤ _max_parallel_c self + _max_parallel_t self ∧
    ((1 < length qs)%nat →
     ∀ p q, p ∈ qs → q ∈ qs → too_far self p q = false).
Proof.
  intros Hgrid. unfold check_controlled.
  destruct (Z.gtb_spec (Z.of_nat (length qs))
              (_max_parallel_c self + _max_parallel_t self)).
  { split; [done | intros [? _]; lia]. }
  destruct (Z.gtb_spec (Z.of_nat (length qs)) 1).
  - rewrite check_reach_ok by done. split.
    + intros Hall. split; [lia | by intros _].
    + intros [_ Hall]. apply Hall. lia.
  - split; [|done]. intros _. split; [lia | intros; lia].
Qed.

Lemma check_parallel_z_ok self g qs :
  check_parallel_z self g qs = ok tt ↔
    (isinstance_ZPowGate g = true →
     Z.of_nat (length qs) ≤ _max_parallel_z self).
Proof.
  unfold check_parallel_z. destruct (isinstance_ZPowGate g); [|done].
  destruct (Z.gtb_spec (Z.of_nat (length qs)) (_max_parallel_z self)).
  - split; [done|]. intros Hle. specialize (Hle eq_refl). lia.
  - split; [intros _ _; lia | done].
Qed.

Lemma check_parallel_xy_ok self g qs :
  check_parallel_xy self g qs = ok tt ↔
    (isinstance_XPowGate g || isinstance_YPowGate g ||
       isinstance_PhasedXPowGate g = true →
     Z.of_nat (length qs) ≤ _max_parallel_xy self ∨
     length qs = length (qubit_list self)).
Proof.
  unfold check_parallel_xy.
  destruct (isinstance_XPowGate g || isinstance_YPowGate g ||
            isinstance_PhasedXPowGate g); [|done].
  destruct (Z.gtb_spec (Z.of_nat (length qs)) (_max_parallel_xy self));
    destruct (Nat.eqb_spec (length qs) (length (qubit_list self))); simpl.
  - split; [by right | done].
  - split; [done|]. intros Hor. destruct (Hor eq_refl); [lia | done].
  - split; [intros _ _; left; lia | done].
  - split; [intros _ _; left; lia | done].
Qed.

(** X14. [validate_operation] accepts a [GateOperation] exactly when it is
    native, all its operands are grid qubits, and either its gate is a
    measurement or an identity, or: it has no more operands than
    [_max_parallel_c + _max_parallel_t]; if it has several operands, no
    ordered pair of them is too far apart; a Z rotation has no more
    operands than [_max_parallel_z]; and an X, Y or phased rotation has no
    more operands than [_max_parallel_xy] or as many as the device has
    Locations. *)
Theorem validation_accepts_iff self g qs :
  validate_operation self (GateOperation g qs) = ok tt ↔
    is_pasqal_device_op (GateOperation g qs) = true ∧
    (∀ q, q ∈ qs → isinstance_ThreeDGridQubit q = true) ∧
    (isinstance_MeasurementGate g || isinstance_IdentityGate g = true ∨
     (Z.of_nat (length qs) ≤ _max_parallel_c self + _max_parallel_t self ∧
      ((1 < length qs)%nat →
       ∀ p q, p ∈ qs → q ∈ qs → too_far self p q = false) ∧
      (isinstance_ZPowGate g = true →
       Z.of_nat (length qs) ≤ _max_parallel_z self) ∧
      (isinstance_XPowGate g || isinstance_YPowGate g ||
         isinstance_PhasedXPowGate g = true →
       Z.of_nat (length qs) ≤ _max_parallel_xy self ∨
       length qs = length (qubit_list self)))).
Proof.
  rewrite validate_ok_checks, check_qubits_ok.
  rewrite check_parallel_z_ok, check_parallel_xy_ok.
  split.
  - intros (Hnative & Hgrid & Hrest). split_and!; [done..|].
    destruct Hrest as [Hkind | (Hctl & Hz & Hxy)]; [by left | right].
    apply check_controlled_ok in Hctl as [Hcap Hreach]; [|done].
    by split_and!.
  - intros (Hnative & Hgrid & Hrest). split_and!; [done..|].
    destruct Hrest as [Hkind | (Hcap & Hreach & Hz & Hxy)]; [by left | right].
    split_and!; [|done..]. by apply check_controlled_ok.
Qed.

(** X15. Whether an operation is accepted does not depend on the order of
    its operands: a rearrangement of the operands is accepted exactly when
    the original is. *)
Theorem acceptance_ignores_operand_order self g qs (qs' : list Qid) :
  qs' ≡ₚ qs →
  validate_operation self (GateOperation g qs') = ok tt ↔
  validate_operation self (GateOperation g qs) = ok tt.
Proof.
  intros Hperm.
  assert (∀ l1 l2 : list Qid, l1 ≡ₚ l2 →
            validate_operation self (GateOperation g l1) = ok tt →
            validate_operation self (GateOperation g l2) = ok tt) as Hhalf.
  { intros l1 l2 Hp.
    rewrite !validate_ok_checks, !check_qubits_ok.
    rewrite !check_parallel_z_ok, !check_parallel_xy_ok.
    intros (Hnative & Hgrid & Hrest).
    assert (∀ q, q ∈ l2 → isinstance_ThreeDGridQubit q = true) as Hgrid2.
    { intros q Hq. apply Hgrid. by rewrite Hp. }
    split_and!; [|done|].
    - simpl in *. by rewrite <- Hp.
    - destruct Hrest as [Hkind | (Hctl & Hz & Hxy)]; [by left | right].
      apply check_controlled_ok in Hctl as [Hcap Hreach]; [|done].
      split_and!.
      + apply check_controlled_ok; [done|]. rewrite <- Hp.
        split; [done|]. intros Hlen p q Hp' Hq'.
        apply Hreach; [done | by rewrite Hp..].
      + by rewrite <- Hp.
      + by rewrite <- Hp. }
  split; apply Hhalf; [done | by symmetry].
Qed.


Lemma measurement_native g qs :
  isinstance_MeasurementGate g || isinstance_IdentityGate g = true →
  is_pasqal_device_op (GateOperation g qs) = true.
Proof.
  simpl. destruct (isinstance_MeasurementGate g), (isinstance_IdentityGate g);
    try done; intros _; by rewrite ?orb_true_r.
Qed.

Lemma z_gate_native g qs :
  isinstance_ZPowGate g = true →
  is_pasqal_device_op (GateOperation g qs) = true.
Proof. simpl. intros ->. by rewrite ?orb_true_r. Qed.

(** X16. For a measurement or an identity only the kind of the operands
    is checked: the operation is accepted exactly when all its operands are
    grid qubits, however many they are and however far apart. *)
Theorem measurement_only_checks_operand_kind self g qs :
  isinstance_MeasurementGate g || isinstance_IdentityGate g = true →
  validate_operation self (GateOperation g qs) = check_qubits g qs ∧
  (validate_operation self (GateOperation g qs) = ok tt ↔
   ∀ q, q ∈ qs → isinstance_ThreeDGridQubit q = true).
Proof.
  intros Hkind.
  assert (validate_operation self (GateOperation g qs) = check_qubits g qs)
    as Heq.
  { unfold validate_operation.
    rewrite (measurement_native g qs Hkind), Hkind. cbn [negb].
    by destruct (check_qubits g qs) as [e|[]]. }
  split; [done|]. rewrite Heq. apply check_qubits_ok.
Qed.

(** X17. For a Z rotation that has passed the checks before the cap, more
    operands than [_max_parallel_z] are refused as too many Z gates, also
    when the operation covers every Location of the device; otherwise
    validation goes on to the X/Y cap. *)
Theorem z_cap_has_no_broadcast_exception self g qs :
  isinstance_ZPowGate g = true →
  check_qubits g qs = ok tt →
  isinstance_MeasurementGate g || isinstance_IdentityGate g = false →
  check_controlled self qs = ok tt →
  (Z.of_nat (length qs) > _max_parallel_z self →
   validate_operation self (GateOperation g qs) =
     raise (ValueError TooManyZGates)) ∧
  (Z.of_nat (length qs) ≤ _max_parallel_z self →
   validate_operation self (GateOperation g qs) =
     check_parallel_xy self g qs).
Proof.
  intros Hz Hqubits Hkind Hctl.
  rewrite validate_operation_physical by auto using z_gate_native.
  rewrite Hctl. unfold check_parallel_z. rewrite Hz. simpl.
  destruct (Z.gtb_spec (Z.of_nat (length qs)) (_max_parallel_z self));
    split; intros; try lia; done.
Qed.

(** X18. On a device built by [__init__], an operation on more than
    eleven grid qubits whose gate is neither a measurement nor an identity
    is refused as acting on too many qubits, before any distance is
    looked at and whatever the gate: also an X rotation on every Location
    of a device that has more than eleven. *)
Theorem more_than_eleven_operands_refused (r : float) (locs : list Qid)
    self g qs :
  __init__ r locs = ok self →
  check_qubits g qs = ok tt →
  isinstance_MeasurementGate g || isinstance_IdentityGate g = false →
  (11 < length qs)%nat →
  validate_operation self (GateOperation g qs) =
    raise (ValueError TooManyQubitsControlled).
Proof.
  intros [-> _]%init_ok Hqubits Hkind Hlen.
  rewrite validate_operation_physical; [|apply several_operands_native; lia|done..].
  unfold check_controlled. simpl.
  by destruct (Z.gtb_spec (Z.of_nat (length qs)) (10 + 1)); [|lia].
Qed.

(** ** What of the device validation looks at *)

Lemma check_reach_from_radius self self' p qs :
  control_radius self = control_radius self' →
  check_reach_from self p qs = check_reach_from self' p qs.
Proof.
  intros Hr. induction qs as [|q qs IH]; simpl; [done|].
  change (distance self' p q) with (distance self p q).
  destruct (distance self p q) as [e|d]; simpl; [done|].
  by rewrite Hr, IH.
Qed.

Lemma check_reach_radius self self' (ps qs : list Qid) :
  control_radius self = control_radius self' →
  check_reach self ps qs = check_reach self' ps qs.
Proof.
  intros Hr. induction ps as [|p ps IH]; simpl; [done|].
  by rewrite (check_reach_from_radius self self'), IH.
Qed.

(** X19. Validation never asks whether an operand is a Location of the
    device: two devices with the same control radius, the same caps and
    the same number of distinct Locations give every operation the same
    verdict. *)
Theorem validation_ignores_which_locations self self'
    (operation : Operation) :
  control_radius self = control_radius self' →
  _max_parallel_z self = _max_parallel_z self' →
  _max_parallel_xy self = _max_parallel_xy self' →
  _max_parallel_c self = _max_parallel_c self' →
  _max_parallel_t self = _max_parallel_t self' →
  length (qubit_list self) = length (qubit_list self') →
  validate_operation self operation = validate_operation self' operation.
Proof.
  intros Hr Hz Hxy Hc Ht Hn. destruct operation as [g qs|name]; [|done].
  unfold validate_operation, check_controlled, check_parallel_z,
    check_parallel_xy.
  by rewrite Hz, Hxy, Hc, Ht, Hn, (check_reach_radius self self').
Qed.

(** ** [__init__] *)

Lemma find_non_grid_None (locs : list Qid) :
  List.find (λ q, negb (isinstance_ThreeDGridQubit q)) locs = None ↔
    ∀ q, q ∈ locs → isinstance_ThreeDGridQubit q = true.
Proof.
  rewrite find_None_lookup. split.
  - intros Hall q [j Hj]%list_elem_of_lookup.
    specialize (Hall j q Hj). by destruct (isinstance_ThreeDGridQubit q).
  - intros Hall j q Hj. rewrite Hall; [done|].
    apply list_elem_of_lookup. by exists j.
Qed.

(** X20. [__init__] builds a device exactly when every given qubit is a
    grid qubit and [control_radius >= 0] holds; the device then has the
    given radius and qubits, durations of 5 000 000 000 and 2 000 000
    picoseconds, and the caps 2, 2, 10 and 1. *)
Theorem init_succeeds_iff (r : float) (locs : list Qid) self :
  __init__ r locs = ok self ↔
    (∀ q, q ∈ locs → isinstance_ThreeDGridQubit q = true) ∧
    (0 <=? r)%float = true ∧
    self = {| _measurement_duration := {| picos := 5000000000 |};
              _gate_duration := {| picos := 2000000 |};
              _max_parallel_z := 2;
              _max_parallel_xy := 2;
              _max_parallel_c := 10;
              _max_parallel_t := 1;
              control_radius := r;
              qubits := locs |}.
Proof.
  split.
  - intros Hinit. pose proof (init_ok r locs self Hinit) as [-> Hr].
    split_and!; [|done..]. apply find_non_grid_None.
    unfold __init__ in Hinit.
    by destruct (List.find _ locs).
  - intros (Hgrid%find_non_grid_None & Hr & ->).
    unfold __init__. by rewrite Hgrid, Hr.
Qed.

(** X21. [__init__] raises its TypeError for the first given qubit that
    is not a grid qubit, whatever the radius; when all are grid qubits it
    raises its ValueError exactly when the radius is a NaN or is below
    zero. *)
Theorem init_failures (r : float) (locs : list Qid) :
  (∀ (l1 l2 : list Qid) q,
     locs = l1 ++ q :: l2 →
     (∀ q', q' ∈ l1 → isinstance_ThreeDGridQubit q' = true) →
     isinstance_ThreeDGridQubit q = false →
     __init__ r locs = raise (TypeError (UnsupportedQubitType q))) ∧
  ((∀ q, q ∈ locs → isinstance_ThreeDGridQubit q = true) →
   (__init__ r locs = raise (ValueError ControlRadiusNotNonNegative) ↔
    Prim2SF r = S754_nan ∨ (r <? 0)%float = true)).
Proof.
  split.
  - intros l1 l2 q -> Hl1 Hq. unfold __init__.
    rewrite find_app_skip; [simpl; by rewrite Hq|].
    intros q' Hq'. by rewrite Hl1.
  - intros Hgrid%find_non_grid_None. unfold __init__. rewrite Hgrid.
    destruct (0 <=? r)%float eqn:Hr; cbn [negb].
    + split; [done|]. intros [Hnan | Hneg].
      * by apply float_nonneg_not_nan in Hr.
      * by rewrite float_nonneg_not_below_zero in Hneg.
    + split; [|done]. intros _.
      assert (Prim2SF r = S754_nan ∨ Prim2SF r ≠ S754_nan) as [Hnan|Hnan].
      { destruct (Prim2SF r); (by left) || (by right). }
      { by left. }
      right. rewrite float_leb_not_ltb in Hr; [|done..].
      by destruct (r <? 0)%float.
Qed.


(** X22. On a device built by [__init__], an operation with a single
    grid-qubit operand is accepted exactly when it is native, that is when
    its gate is one of the six kinds the device names. *)
Theorem single_operand_accepted_iff_native (r : float) (locs : list Qid)
    self g q :
  __init__ r locs = ok self →
  isinstance_ThreeDGridQubit q = true →
  validate_operation self (GateOperation g [q]) = ok tt ↔
  is_pasqal_device_op (GateOperation g [q]) = true.
Proof.
  intros [-> _]%init_ok Hq.
  rewrite validate_ok_checks, check_qubits_ok.
  rewrite check_parallel_z_ok, check_parallel_xy_ok.
  split; [by intros [? _]|]. intros Hnative. split_and!; [done| |].
  - by intros q' ->%list_elem_of_singleton.
  - destruct (isinstance_MeasurementGate g || isinstance_IdentityGate g);
      [by left | right].
    split_and!; [done | simpl; intros; lia | simpl; intros; left; lia].
Qed.

(** ** The Locations of the device *)

(** X23. [qubit_list] holds every Location given to the device exactly
    once: it has no repetition, the same members as [qubits], and so at
    most as many elements, as many when [qubits] has no repetition. *)
Theorem qubit_list_holds_each_location_once self :
  NoDup (qubit_list self) ∧
  (∀ q, q ∈ qubit_list self ↔ q ∈ qubits self) ∧
  (length (qubit_list self) ≤ length (qubits self))%nat ∧
  (NoDup (qubits self) → length (qubit_list self) = length (qubits self)).
Proof.
  unfold qubit_list, qubit_set.
  assert (∀ q, q ∈ elements (list_to_set (qubits self) : gset Qid) ↔
               q ∈ qubits self) as Hmem.
  { intros q. by rewrite elem_of_elements, elem_of_list_to_set. }
  split_and!.
  - apply NoDup_elements.
  - done.
  - apply submseteq_length, NoDup_submseteq; [apply NoDup_elements|].
    intros q. by rewrite Hmem.
  - intros Hnd. apply Permutation_length, NoDup_Permutation;
      [apply NoDup_elements | done | done].
Qed.

(** ** [distance] *)


(** ** The two projections of a device *)

(** X25. Two devices built by [__init__] whose equality values are the
    same are the same device: leaving the target cap out of the values
    never makes two built devices that differ look equal. *)
Theorem built_devices_with_equal_values_are_equal
    (r1 r2 : float) (l1 l2 : list Qid) (d1 d2 : PasqalDevice) :
  __init__ r1 l1 = ok d1 → __init__ r2 l2 = ok d2 →
  _value_equality_values_ d1 = _value_equality_values_ d2 →
  d1 = d2.
Proof.
  intros [-> _]%init_ok [-> _]%init_ok. unfold _value_equality_values_.
  simpl. by intros [= -> ->].
Qed.

(** X26. What [_json_dict_] keeps of a device built by [__init__] is what
    [__init__] was given, and [__init__] applied to the two kept values
    builds the same device again. *)
Theorem json_fields_rebuild_the_device (r : float) (locs : list Qid) self :
  __init__ r locs = ok self →
  _json_dict_ self =
    [ ("control_radius"%string, VFloat r); ("qubits"%string, VQubits locs) ] ∧
  __init__ (control_radius self) (qubits self) = ok self.
Proof.
  intros Hinit. pose proof (init_ok r locs self Hinit) as [-> _].
  by split.
Qed.

End validate.

(** ** At concrete operations and devices *)

#[local] Existing Instance cirq_catalog.

Lemma decomposition_native_witness :
  let q := ThreeDGridQubit 0 0 0 in
  let ds := [cirq_op YPowGate [q]; cirq_op XPowGate [q]] in
  (∀ dec, dec ∈ ds → is_pasqal_device_op dec = true) ∧
  ((is_pasqal_device_op (cirq_op HPowGate [q]) = true ∧
    ds = [cirq_op HPowGate [q]]) ∨
   (is_pasqal_device_op (cirq_op HPowGate [q]) = false ∧
    @protocols_decompose cirq_catalog rewriting_decomposer
      (cirq_op HPowGate [q]) is_pasqal_device_op = ok ds)).
Proof.
  intros q ds.
  apply (@decomposition_result_is_native cirq_catalog rewriting_decomposer
           (cirq_op HPowGate [q]) ds).
  reflexivity.
Defined.

Lemma several_operands_witness :
  let op := cirq_op HPowGate [ThreeDGridQubit 0 0 0; ThreeDGridQubit 0 0 1] in
  @decompose_operation cirq_catalog rewriting_decomposer op =
    mkRun [] (ok [op]).
Proof.
  intros op.
  apply (@several_operands_never_decomposed cirq_catalog
           rewriting_decomposer HPowGate
           [ThreeDGridQubit 0 0 0; ThreeDGridQubit 0 0 1]).
  simpl; lia.
Defined.

Lemma decomposition_stable_witness :
  let q := ThreeDGridQubit 0 0 0 in
  calls (@decompose_operation cirq_catalog rewriting_decomposer
           (cirq_op YPowGate [q])) = [] ∧
  outcome (@decompose_operation cirq_catalog rewriting_decomposer
             (cirq_op YPowGate [q])) = ok [cirq_op YPowGate [q]].
Proof.
  intros q.
  apply (@decomposition_result_is_stable cirq_catalog rewriting_decomposer
           (cirq_op HPowGate [q])
           [cirq_op YPowGate [q]; cirq_op XPowGate [q]]).
  - reflexivity.
  - left.
Defined.

Lemma decomposition_support_witness :
  let q := ThreeDGridQubit 0 0 0 in
  let dec := cirq_op XPowGate [q] in
  ∃ (g : @Gate cirq_catalog) qs, dec = GateOperation g qs ∧
    validate_operation cube_device dec =
      (do _ <- check_qubits g qs;
       if isinstance_MeasurementGate g || isinstance_IdentityGate g
       then ok tt
       else
         do _ <- check_controlled cube_device qs;
         do _ <- check_parallel_z cube_device g qs;
         check_parallel_xy cube_device g qs).
Proof.
  intros q dec.
  apply (@decomposition_result_passes_support_checks cirq_catalog
           rewriting_decomposer cube_device (cirq_op HPowGate [q])
           [cirq_op YPowGate [q]; cirq_op XPowGate [q]]).
  - reflexivity.
  - right. left.
Defined.

Lemma operand_order_witness :
  let g : @Gate cirq_catalog := CZPowGate in
  validate_operation face_device
    (GateOperation g [ThreeDGridQubit 0 1 1; ThreeDGridQubit 0 0 0]) = ok tt ↔
  validate_operation face_device
    (GateOperation g [ThreeDGridQubit 0 0 0; ThreeDGridQubit 0 1 1]) = ok tt.
Proof.
  intros g.
  apply (@acceptance_ignores_operand_order cirq_catalog face_device g
           [ThreeDGridQubit 0 0 0; ThreeDGridQubit 0 1 1]
           [ThreeDGridQubit 0 1 1; ThreeDGridQubit 0 0 0]).
  apply Permutation_swap.
Defined.

Lemma measurement_witness :
  let g : @Gate cirq_catalog := MeasurementGate in
  let qs := [ThreeDGridQubit 0 0 0; ThreeDGridQubit 9 9 9] in
  validate_operation face_device (GateOperation g qs) = check_qubits g qs ∧
  (validate_operation face_device (GateOperation g qs) = ok tt ↔
   ∀ q, q ∈ qs → isinstance_ThreeDGridQubit q = true).
Proof.
  intros g qs.
  apply (@measurement_only_checks_operand_kind cirq_catalog face_device g qs).
  reflexivity.
Defined.

Lemma z_cap_witness :
  let g : @Gate cirq_catalog := ZPowGate in
  (Z.of_nat (length unit_face) > _max_parallel_z face_device →
   validate_operation face_device (GateOperation g unit_face) =
     raise (ValueError TooManyZGates)) ∧
  (Z.of_nat (length unit_face) ≤ _max_parallel_z face_device →
   validate_operation face_device (GateOperation g unit_face) =
     check_parallel_xy face_device g unit_face).
Proof.
  intros g.
  apply (@z_cap_has_no_broadcast_exception cirq_catalog face_device g
           unit_face); reflexivity.
Defined.

Lemma more_than_eleven_witness :
  let g : @Gate cirq_catalog := XPowGate in
  validate_operation cube_device (GateOperation g (unit_cube ++ unit_face)) =
    raise (ValueError TooManyQubitsControlled).
Proof.
  intros g.
  apply (@more_than_eleven_operands_refused cirq_catalog 1.5%float unit_cube
           cube_device g (unit_cube ++ unit_face)).
  - exact cube_device_init.
  - reflexivity.
  - reflexivity.
  - simpl; lia.
Defined.

Lemma which_locations_witness :
  let doubled : PasqalDevice :=
    {| _measurement_duration := {| picos := 5000000000 |};
       _gate_duration := {| picos := 2000000 |};
       _max_parallel_z := 2;
       _max_parallel_xy := 2;
       _max_parallel_c := 10;
       _max_parallel_t := 1;
       control_radius := 1.5;
       qubits := unit_face ++ unit_face |} in
  let operation := cirq_op XPowGate [ThreeDGridQubit 7 7 7] in
  validate_operation face_device operation =
    validate_operation doubled operation.
Proof.
  intros doubled operation.
  apply (@validation_ignores_which_locations cirq_catalog face_device
           doubled operation); reflexivity.
Defined.

Lemma init_failures_witness :
  @__init__ cirq_catalog 1.5
    [ThreeDGridQubit 0 0 0; OtherQid 4; OtherQid 5] =
    raise (TypeError (UnsupportedQubitType (OtherQid 4))).
Proof.
  apply (proj1 (@init_failures cirq_catalog 1.5%float
                  [ThreeDGridQubit 0 0 0; OtherQid 4; OtherQid 5])
           [ThreeDGridQubit 0 0 0] [OtherQid 5] (OtherQid 4)).
  - reflexivity.
  - intros q' Hq'. apply list_elem_of_singleton in Hq'. by rewrite Hq'.
  - reflexivity.
Defined.

Lemma single_operand_witness :
  let g : @Gate cirq_catalog := PhasedXPowGate in
  validate_operation cube_device (GateOperation g [ThreeDGridQubit 3 4 5]) =
    ok tt ↔
  is_pasqal_device_op (GateOperation g [ThreeDGridQubit 3 4 5]) = true.
Proof.
  intros g.
  apply (@single_operand_accepted_iff_native cirq_catalog 1.5%float unit_cube
           cube_device g (ThreeDGridQubit 3 4 5)).
  - exact cube_device_init.
  - reflexivity.
Defined.

Lemma qubit_list_witness :
  length (qubit_list cube_device) = length (qubits cube_device).
Proof.
  apply (proj2 (proj2 (proj2
           (@qubit_list_holds_each_location_once cube_device)))).
  apply (bool_decide_unpack _). vm_compute. exact I.
Defined.

Lemma built_devices_witness : cube_device = cube_device.
Proof.
  apply (@built_devices_with_equal_values_are_equal cirq_catalog
           1.5%float 1.5%float unit_cube unit_cube cube_device cube_device).
  - exact cube_device_init.
  - exact cube_device_init.
  - reflexivity.
Defined.

Lemma json_fields_witness :
  _json_dict_ face_device =
    [ ("control_radius"%string, VFloat 1.5);
      ("qubits"%string, VQubits unit_face) ] ∧
  @__init__ cirq_catalog (control_radius face_device) (qubits face_device) =
    ok face_device.
Proof.
  apply (@json_fields_rebuild_the_device cirq_catalog 1.5%float unit_face
           face_device).
  exact face_device_init.
Defined.

End PasqalMore.
